(** * ETK: the extraction engine and its tokenizer contract

    A shallow embedding of [etk/etk.py] (class [ETK]) and of the tokenizer
    contract exercised by [etk2/unit_tests/test_tokenizer.py].

    Python objects are mutable; the embedding threads the engine explicitly:
    a method that assigns to [self] returns the new engine next to its
    result.  A raised exception is the [Raise] case of [result]. *)

From Stdlib Require Import String Ascii.
From stdpp Require Import gmap strings list fin_maps.

Local Open Scope string_scope.

(** ** Exceptions and results *)

(** The exception classes the engine raises, plus [AttributeError] (raised by
    the interpreter on a read of an attribute that was never assigned) and
    [ModuleError] (whatever a user module raises). *)
Inductive exn : Type :=
  | InvalidJsonPathError (msg : string)
  | NotGetETKModuleError (msg : string)
  | AttributeError (attr : string)
  | ModuleError (msg : string).

Inductive result (A : Type) : Type :=
  | Ok (a : A)
  | Raise (e : exn).
Arguments Ok {A} a.
Arguments Raise {A} e.

Definition is_ok {A} (r : result A) : bool :=
  match r with Ok _ => true | Raise _ => false end.

(** ** The string methods the engine uses *)

Module PyStr.

(** [str.lower] on the ASCII range: the capitals move down by 32. *)
Definition lower_char (c : ascii) : ascii :=
  let n := nat_of_ascii c in
  if (65 <=? n)%nat && (n <=? 90)%nat then ascii_of_nat (n + 32) else c.

Fixpoint lower (s : string) : string :=
  match s with
  | EmptyString => EmptyString
  | String c s' => String (lower_char c) (lower s')
  end.

Fixpoint lstrip (ch : ascii) (s : string) : string :=
  match s with
  | EmptyString => EmptyString
  | String c s' => if Ascii.eqb c ch then lstrip ch s' else s
  end.

Definition reverse (s : string) : string :=
  string_of_list_ascii (rev (list_ascii_of_string s)).

Definition rstrip (ch : ascii) (s : string) : string :=
  reverse (lstrip ch (reverse s)).

(** [s.strip(ch)] for a one-character [ch]. *)
Definition strip (ch : ascii) (s : string) : string :=
  rstrip ch (lstrip ch s).

End PyStr.

(** ** etk/etk.py *)

Module Etk.

(** [etk_exceptions.ErrorPolicy]: the four members [ETK.__init__] names. *)
Inductive ErrorPolicy : Type :=
  | PROCESS
  | THROW_EXTRACTION
  | THROW_DOCUMENT
  | RAISE.

(** [etk_module.ETKModule], as the engine uses it: the two methods
    [process_ems] calls.  [process_document] mutates the document it is
    given (the new document is its result here) or raises; the list it
    returns is dropped by [process_ems]. *)
Class ETKModule (Doc EM : Type) := {
  document_selector : EM -> Doc -> bool;
  process_document : EM -> Doc -> result Doc
}.

(** One call made on a module, with the document as it was at the call. *)
Inductive call (Doc EM : Type) : Type :=
  | CallSelector (em : EM) (doc : Doc) (answer : bool)
  | CallProcess (em : EM) (doc : Doc).
Arguments CallSelector {Doc EM} em doc answer.
Arguments CallProcess {Doc EM} em doc.

Section Engine.

(** [Compiled]: what [jsonpath_ng.parse] returns; [Doc], [KG]:
    [etk.document.Document] and its [kg] attribute; [Schema]: the
    [kg_schema] argument, passed through. *)
Context {Compiled Doc KG Schema EM : Type}.
Context `{ETKModule Doc EM}.

(** [jsonpath_ng.parse]: [None] when it raises. *)
Variable jsonpath_ng_parse : string -> option Compiled.

(** [doc.kg] *)
Variable doc_kg : Doc -> KG.

(** The first [try] block of [load_ems]: list the directory, import
    every [em_*.py] file and instantiate every module class in it, in
    that order.  [None] when anything in the block raises. *)
Variable discover : string -> option (list EM).

Record ETK : Type := {
  parser : string -> option Compiled;
  parsed : gmap string Compiled;
  kg_schema : option Schema;
  em_lst : option (list EM);      (* [None]: attribute never assigned *)
  error_policy : option ErrorPolicy
}.

Definition set_parsed (self : ETK) (p : gmap string Compiled) : ETK :=
  {| parser := parser self; parsed := p; kg_schema := kg_schema self;
     em_lst := em_lst self; error_policy := error_policy self |}.

(** [topological_sort]: the body is the string ["TODO"] and
    [return lst]. *)
Definition topological_sort {A : Type} (lst : list A) : list A := lst.

Definition load_ems (modules_path : string) : result (list EM) :=
  let modules_path := PyStr.strip "/" (PyStr.strip "." modules_path) in
  match discover modules_path with
  | None => Raise (NotGetETKModuleError "Wrong file path for ETK modules")
  | Some em_lst =>
      let em_lst := topological_sort em_lst in
      match em_lst with
      | [] => Raise (NotGetETKModuleError
                "No ETK module in dir, module file should start with em_, end with .py")
      | _ => Ok em_lst
      end
  end.

(** The [modules] argument of the constructor: [None], a string, or a
    class ([issubclass] answers [is_etk_module]; calling the class gives
    [instance]). *)
Inductive modules_arg : Type :=
  | ModulesNone
  | ModulesPath (path : string)
  | ModulesClass (is_etk_module : bool) (instance : EM).

(** The three [if] statements that close [__init__], in order, as
    assignments to [self.error_policy] ([None]: not assigned yet).  The
    first two have no [else]; the [else] belongs to the third. *)
Definition select_error_policy (extract_error_policy : string)
    : option ErrorPolicy :=
  let error_policy := None in
  let error_policy :=
    if String.eqb (PyStr.lower extract_error_policy) "throw_extraction"
    then Some THROW_EXTRACTION else error_policy in
  let error_policy :=
    if String.eqb (PyStr.lower extract_error_policy) "throw_document"
    then Some THROW_DOCUMENT else error_policy in
  let error_policy :=
    if String.eqb (PyStr.lower extract_error_policy) "raise_error"
    then Some RAISE else Some PROCESS in
  error_policy.

Definition __init__ (kg_schema : option Schema) (modules : modules_arg)
    (extract_error_policy : string) : result ETK :=
  let ems : result (option (list EM)) :=
    match modules with
    | ModulesNone => Ok None
    | ModulesPath "" => Ok None          (* the empty string is falsy *)
    | ModulesPath path =>
        match load_ems path with
        | Ok l => Ok (Some l)
        | Raise e => Raise e
        end
    | ModulesClass true instance => Ok (Some [instance])
    | ModulesClass false _ =>
        Raise (NotGetETKModuleError "Not getting extraction module")
    end in
  match ems with
  | Raise e => Raise e
  | Ok ems =>
      Ok {| parser := jsonpath_ng_parse; parsed := ∅;
            kg_schema := kg_schema; em_lst := ems;
            error_policy := select_error_policy extract_error_policy |}
  end.

(** [parse_json_path]: the new engine, the strings handed to
    [self.parser] during the call, and the outcome. *)
Definition parse_json_path (self : ETK) (jsonpath : string)
    : ETK * list string * result Compiled :=
  match parsed self !! jsonpath with
  | Some c => (self, [], Ok c)
  | None =>
      match parser self jsonpath with
      | Some c => (set_parsed self (<[jsonpath := c]> (parsed self)),
                   [jsonpath], Ok c)
      | None => (self, [jsonpath],
                 Raise (InvalidJsonPathError "Invalid Json Path"))
      end
  end.

(** The [for] loop of [process_ems]: the calls made, and the document
    at the end or the exception that left the loop. *)
Fixpoint run_ems (ems : list EM) (doc : Doc)
    : list (call Doc EM) * result Doc :=
  match ems with
  | [] => ([], Ok doc)
  | a_em :: rest =>
      if document_selector a_em doc then
        match process_document a_em doc with
        | Ok doc' =>
            let '(calls, r) := run_ems rest doc' in
            (CallSelector a_em doc true :: CallProcess a_em doc :: calls, r)
        | Raise e =>
            ([CallSelector a_em doc true; CallProcess a_em doc], Raise e)
        end
      else
        let '(calls, r) := run_ems rest doc in
        (CallSelector a_em doc false :: calls, r)
  end.

Definition process_ems (self : ETK) (doc : Doc)
    : list (call Doc EM) * result (Doc * KG) :=
  match em_lst self with
  | None => ([], Raise (AttributeError "em_lst"))
  | Some ems =>
      let '(calls, r) := run_ems ems doc in
      (calls, match r with
              | Ok doc' => Ok (doc', doc_kg doc')
              | Raise e => Raise e
              end)
  end.

(** The engines a program can hold: built by the constructor, then
    used through [parse_json_path] any number of times ([process_ems]
    assigns nothing on the engine). *)
Inductive reachable : ETK -> Prop :=
  | reachable_init kg_schema modules policy self :
      __init__ kg_schema modules policy = Ok self -> reachable self
  | reachable_parse self jsonpath :
      reachable self -> reachable (parse_json_path self jsonpath).1.1.

(** [later self self']: [self'] is [self] after some more calls of
    [parse_json_path]. *)
Inductive later (self : ETK) : ETK -> Prop :=
  | later_now : later self self
  | later_parse self' jsonpath :
      later self self' -> later self (parse_json_path self' jsonpath).1.1.

(** Every cached entry is what the parser gives for its key. *)
Definition cache_sound (self : ETK) : Prop :=
  parser self = jsonpath_ng_parse
  /\ forall p c, parsed self !! p = Some c -> jsonpath_ng_parse p = Some c.

(** [n] calls of [parse_json_path] in a row on the same string: the
    outcomes, first call first. *)
Fixpoint attempts (n : nat) (self : ETK) (jsonpath : string)
    : list (result Compiled) :=
  match n with
  | 0 => []
  | S n' =>
      let '(self', _, r) := parse_json_path self jsonpath in
      r :: attempts n' self' jsonpath
  end.

(** The modules whose [document_selector] was called, in call order. *)
Definition selector_modules (calls : list (call Doc EM)) : list EM :=
  omap (fun c => match c with
                 | CallSelector m _ _ => Some m
                 | CallProcess _ _ => None
                 end) calls.

End Engine.

End Etk.

(** ** The tokenizer

    [etk/tokenizer.py] is imported by [etk.py] and exercised by
    [unit_tests/test_tokenizer.py]; the class itself is modelled from the
    specification (sections 3, 4.2 and 6). *)

Module Tokenizer.

(** Modelled from the spec: the [Token] value object of [tokenizer.py]
    (section 3): the exact substring, its 0-based start index in the
    original text, and its shape signature. *)
Record Token : Type := {
  text : string;
  offset : nat;
  shape : string
}.

(** Modelled from the spec: what the upstream tokenizer provider returns
    (section 6): raw spans with a text and a start offset. *)
Record Span : Type := {
  span_start : nat;
  span_text : string
}.

Definition is_letter (c : ascii) : bool :=
  let n := nat_of_ascii c in
  ((65 <=? n)%nat && (n <=? 90)%nat) || ((97 <=? n)%nat && (n <=? 122)%nat).

Definition is_digit (c : ascii) : bool :=
  let n := nat_of_ascii c in
  (48 <=? n)%nat && (n <=? 57)%nat.

(** Modelled from the spec: the per-character class of the shape
    computation of [tokenizer.py] (section 4.2): letter to [x], digit to
    [d], punctuation and space kept as they are. *)
Definition shape_char (c : ascii) : ascii :=
  if is_letter c then "x"%char
  else if is_digit c then "d"%char
  else c.

(** Modelled from the spec: the shape signature of [tokenizer.py]
    (section 4.2): the per-character classes, one per character, nothing
    collapsed. *)
Fixpoint compute_shape (s : string) : string :=
  match s with
  | EmptyString => EmptyString
  | String c s' => String (shape_char c) (compute_shape s')
  end.

(** Modelled from the spec: the token [tokenize] builds for a stretch of
    text (section 4.2, items 1 and 2): its offset in the original text and
    its shape, computed here. *)
Definition make_token (start : nat) (s : string) : Token :=
  {| text := s; offset := start; shape := compute_shape s |}.

(** Modelled from the spec: the token put back for a gap (section 4.2,
    item 3): the stretch of [txt] from [pos] up to [stop], as a token of
    its own when it is not empty. *)
Definition gap_tokens (txt : string) (pos stop : nat) : list Token :=
  if (pos <? stop)%nat
  then [make_token pos (substring pos (stop - pos) txt)]
  else [].

(** Modelled from the spec: the gap filling of [Tokenizer.tokenize]
    (section 4.2, item 3): walk the provider's spans from position [pos];
    whatever the provider left out before a span, and after the last
    one, goes back in as a token of its own. *)
Fixpoint fill_gaps (txt : string) (pos : nat) (spans : list Span)
    : list Token :=
  match spans with
  | [] => gap_tokens txt pos (String.length txt)
  | s :: rest =>
      gap_tokens txt pos (span_start s)
      ++ make_token (span_start s) (span_text s)
      :: fill_gaps txt (span_start s + String.length (span_text s)) rest
  end.

(** The provider's side of the contract (section 6, raw spans with a
    text and a start offset): spans in text order, not overlapping, inside
    the text, each carrying the text found at its start offset. *)
Fixpoint spans_ok (txt : string) (pos : nat) (spans : list Span) : bool :=
  match spans with
  | [] => (pos <=? String.length txt)%nat
  | s :: rest =>
      (pos <=? span_start s)%nat
      && (span_start s + String.length (span_text s) <=? String.length txt)%nat
      && String.eqb (substring (span_start s) (String.length (span_text s)) txt)
                    (span_text s)
      && spans_ok txt (span_start s + String.length (span_text s)) rest
  end.

(** Tokens that tile [txt] from [pos] to its end: each starts where the
    one before stopped and carries the text found there. *)
Fixpoint contiguous (txt : string) (pos : nat) (toks : list Token) : bool :=
  match toks with
  | [] => (pos =? String.length txt)%nat
  | t :: rest =>
      (offset t =? pos)%nat
      && String.eqb (substring pos (String.length (text t)) txt) (text t)
      && contiguous txt (pos + String.length (text t)) rest
  end.

Section WithProvider.

(** The upstream tokenizer provider, a black box. *)
Variable provider : string -> list Span.

(** Modelled from the spec: [Tokenizer.tokenize] of [tokenizer.py]
    (section 4.2): boundaries from the provider, offsets and shapes
    computed here, gaps filled. *)
Definition tokenize (txt : string) : list Token :=
  fill_gaps txt 0 (provider txt).

End WithProvider.

(** Modelled from the spec: [Tokenizer.reconstruct_text] of
    [tokenizer.py] (section 4.2): a fold that concatenates the [text]
    fields in the given order and looks at no offset. *)
Definition reconstruct (tokens : list Token) : string :=
  fold_right (fun t acc => String.append (text t) acc) EmptyString tokens.

End Tokenizer.

(** ** unit_tests/test_tokenizer.py: the data of [test_tokenizer] *)

Module TestTokenizer.

Definition nl : string := String (ascii_of_nat 10) EmptyString.

(** [text] *)
Definition test_text : string :=
  "dsa@isi.edu 32.4 -32.1 (123)-345-6789, " ++ nl ++ " " ++ nl ++ "   ".

(** One entry of [token_attrs]: [orth], [offset], [full_shape]. *)
Definition attrs : Type := (string * nat * string)%type.

(** [expected] *)
Definition expected : list attrs :=
  [ ("dsa", 0, "xxx");
    ("@", 3, "@");
    ("isi", 4, "xxx");
    (".", 7, ".");
    ("edu", 8, "xxx");
    ("32.4", 12, "dd.d");
    ("-", 17, "-");
    ("32.1", 18, "dd.d");
    ("(", 23, "(");
    ("123", 24, "ddd");
    (")", 27, ")");
    ("-", 28, "-");
    ("345", 29, "ddd");
    ("-", 32, "-");
    ("6789,", 33, "dddd,");
    (nl ++ " ", 39, nl ++ " ");
    (nl, 41, nl);
    ("   ", 42, "   ") ].

(** [token_attrs.append({"orth": ..., "offset": ..., "full_shape": ...})] *)
Definition token_attrs (tokens : list Tokenizer.Token) : list attrs :=
  map (fun i => (Tokenizer.text i, Tokenizer.offset i, Tokenizer.shape i))
      tokens.

(** The boundaries the test's expected list records for [test_text]. *)
Definition expected_spans : list Tokenizer.Span :=
  map (fun a : attrs =>
         {| Tokenizer.span_start := a.1.2; Tokenizer.span_text := a.1.1 |})
      expected.

End TestTokenizer.

(** ** Concrete collaborators, for running the definitions *)

Module Demo.

Import Tokenizer.

(** A small upstream provider: blanks are dropped, a run of letters,
    digits and dots is one span, any other character is a span of its
    own. *)
Definition is_blank (c : ascii) : bool :=
  let n := nat_of_ascii c in
  (n =? 32)%nat || (n =? 9)%nat || (n =? 10)%nat || (n =? 13)%nat.

Definition is_word (c : ascii) : bool :=
  is_letter c || is_digit c || Ascii.eqb c "."%char.

Definition flush (cur : option Span) : list Span :=
  match cur with Some s => [s] | None => [] end.

Definition extend (cur : option Span) (pos : nat) (c : ascii) : Span :=
  match cur with
  | Some s => {| span_start := span_start s;
                 span_text := String.append (span_text s) (String c EmptyString) |}
  | None => {| span_start := pos; span_text := String c EmptyString |}
  end.

Fixpoint scan (cs : string) (pos : nat) (cur : option Span) : list Span :=
  match cs with
  | EmptyString => flush cur
  | String c rest =>
      if is_blank c then (flush cur ++ scan rest (S pos) None)%list
      else if is_word c then scan rest (S pos) (Some (extend cur pos c))
      else (flush cur
            ++ {| span_start := pos; span_text := String c EmptyString |}
            :: scan rest (S pos) None)%list
  end.

Definition simple_provider (txt : string) : list Span := scan txt 0 None.

(** What [scan] keeps true of the span it is still growing when it stands
    at [pos] in [txt], with every span before it closed by [low]. *)
Definition growing_ok (txt : string) (low pos : nat) (cur : option Span)
    : Prop :=
  match cur with
  | None => low <= pos
  | Some s =>
      low <= span_start s
      /\ span_start s + String.length (span_text s) = pos
      /\ substring (span_start s) (String.length (span_text s)) txt
         = span_text s
  end.

(** A provider that answers with the unit test's boundaries on the unit
    test's text, and like [simple_provider] elsewhere. *)
Definition unit_test_provider (txt : string) : list Span :=
  if String.eqb txt TestTokenizer.test_text
  then TestTokenizer.expected_spans
  else simple_provider txt.

(** A stand-in for [jsonpath_ng.parse]: a path is a non-empty chain of
    non-empty fields separated by dots; the compiled form is the chain. *)
Fixpoint fields (s : string) (cur : string) : list string :=
  match s with
  | EmptyString => [cur]
  | String c rest =>
      if Ascii.eqb c "."%char then cur :: fields rest EmptyString
      else fields rest (String.append cur (String c EmptyString))
  end.

Definition parse (s : string) : option (list string) :=
  let chain := fields s EmptyString in
  if forallb (fun f => negb (String.eqb f EmptyString)) chain
  then Some chain else None.

(** Three extraction modules over a document that is the list of the
    knowledge-graph fields written so far. *)
Inductive em : Type :=
  | DeveloperModule        (* writes the field [developer] *)
  | TeamModule             (* reads [developer], writes [team] *)
  | IdleModule.            (* selects no document *)

Definition has_field (f : string) (doc : list string) : bool :=
  existsb (String.eqb f) doc.

#[global] Instance em_module : Etk.ETKModule (list string) em := {|
  Etk.document_selector m doc :=
    match m with IdleModule => false | _ => true end;
  Etk.process_document m doc :=
    match m with
    | DeveloperModule => Ok (doc ++ ["developer"])%list
    | TeamModule =>
        if has_field "developer" doc then Ok (doc ++ ["team"])%list
        else Ok (doc ++ ["team without developer"])%list
    | IdleModule => Ok (doc ++ ["idle"])%list
    end
|}.

(** [TeamModule] depends on the output of [DeveloperModule]. *)
Definition depends_on (m1 m2 : em) : bool :=
  match m1, m2 with
  | TeamModule, DeveloperModule => true
  | _, _ => false
  end.

(** Two modules that depend on each other. *)
Definition cyclic (m1 m2 : em) : bool :=
  match m1, m2 with
  | TeamModule, DeveloperModule => true
  | DeveloperModule, TeamModule => true
  | _, _ => false
  end.

(** The directory [ems] holds [TeamModule] first and [DeveloperModule]
    last. *)
Definition discover (path : string) : option (list em) :=
  if String.eqb path "ems" then Some [TeamModule; IdleModule; DeveloperModule]
  else if String.eqb path "none" then Some []
  else None.

Definition doc_kg (doc : list string) : list string := doc.

Definition new_etk (modules : Etk.modules_arg) (policy : string)
    : result (Etk.ETK (Compiled := list string) (Schema := unit)) :=
  Etk.__init__ parse discover None modules policy.

(** The engine of [ETK()], and the engine of [ETK(modules="./ems/")]. *)
Definition bare : Etk.ETK (Compiled := list string) (Schema := unit) (EM := em) :=
  {| Etk.parser := parse; Etk.parsed := ∅; Etk.kg_schema := None;
     Etk.em_lst := None; Etk.error_policy := Some Etk.PROCESS |}.

Definition loaded : Etk.ETK (Compiled := list string) (Schema := unit) :=
  {| Etk.parser := parse; Etk.parsed := ∅; Etk.kg_schema := None;
     Etk.em_lst := Some [TeamModule; IdleModule; DeveloperModule];
     Etk.error_policy := Some Etk.PROCESS |}.

(** [bare] after [parse_json_path("projects.members")], and after one more
    call, [parse_json_path("name")]. *)
Definition after_first : Etk.ETK (Compiled := list string) (Schema := unit) (EM := em) :=
  (Etk.parse_json_path bare "projects.members").1.1.

Definition after_second : Etk.ETK (Compiled := list string) (Schema := unit) (EM := em) :=
  (Etk.parse_json_path after_first "name").1.1.

End Demo.

(** ** Dependency order (what [topological_sort] is documented to give) *)

(** [order] runs every module after the modules it depends on: no module
    depends on one that comes later. *)
Fixpoint dependencies_first {A : Type} (depends_on : A -> A -> bool)
    (order : list A) : bool :=
  match order with
  | [] => true
  | m :: rest =>
      forallb (fun m' => negb (depends_on m m')) rest
      && dependencies_first depends_on rest
  end.

(** A dependency cycle of length two among the modules of [lst]. *)
Definition has_two_cycle {A : Type} (depends_on : A -> A -> bool)
    (lst : list A) : bool :=
  existsb (fun m1 => existsb (fun m2 => depends_on m1 m2 && depends_on m2 m1) lst)
          lst.

(** ** Callers of the engine *)

Module EtkUse.

Section Calls.

Context {Compiled Schema EM : Type}.

(** A caller that compiles [paths] one after the other on the same engine
    (and goes on after an [InvalidJsonPathError]): the engine at the end
    and the strings handed to [self.parser] on the way, in order. *)
Fixpoint parse_all (self : Etk.ETK (Compiled := Compiled) (Schema := Schema) (EM := EM))
    (paths : list string) : Etk.ETK (Compiled := Compiled) (Schema := Schema) (EM := EM) * list string :=
  match paths with
  | [] => (self, [])
  | jsonpath :: rest =>
      let '(self', handed, _) := Etk.parse_json_path self jsonpath in
      let '(self'', handed') := parse_all self' rest in
      (self'', (handed ++ handed')%list)
  end.

End Calls.

End EtkUse.

(** ** More string methods *)

Module PyText.

(** [s.startswith(prefix)] *)
Definition startswith (prefix s : string) : bool := String.prefix prefix s.

(** [s.endswith(suffix)] *)
Definition endswith (suffix s : string) : bool :=
  (String.length suffix <=? String.length s)%nat
  && String.eqb
       (substring (String.length s - String.length suffix)
          (String.length suffix) s)
       suffix.

(** [s[:-n]] for a positive [n]. *)
Definition drop_last (n : nat) (s : string) : string :=
  substring 0 (String.length s - n) s.

(** The first character of [s] is [ch]; the last one is. *)
Definition starts_with_char (ch : ascii) (s : string) : bool :=
  match s with
  | EmptyString => false
  | String c _ => Ascii.eqb c ch
  end.

Definition ends_with_char (ch : ascii) (s : string) : bool :=
  starts_with_char ch (PyStr.reverse s).

(** [n] dots in a row. *)
Fixpoint dots (n : nat) : string :=
  match n with
  | 0 => EmptyString
  | S n' => String "."%char (dots n')
  end.

(** A Python [str] read as the sequence of its code points; [codes]
    gives the code points of a string of 8-bit characters. *)
Definition codes (s : string) : list N :=
  map N_of_ascii (list_ascii_of_string s).

(** The line boundaries of [str.splitlines]: LF, VT, FF, CR, FS, GS, RS,
    NEL, LINE SEPARATOR (U+2028) and PARAGRAPH SEPARATOR (U+2029). *)
Definition is_linebreak (c : N) : bool :=
  ((c =? 10) || (c =? 11) || (c =? 12) || (c =? 13)
   || (c =? 28) || (c =? 29) || (c =? 30) || (c =? 133)
   || (c =? 8232) || (c =? 8233))%N.

Definition CR : N := 13%N.
Definition LF : N := 10%N.

(** [str.splitlines] with the line read so far in [cur]: a boundary ends
    the line (a CR directly followed by LF is one boundary), the
    boundaries are not kept, and the stretch after the last boundary is a
    line when it is not empty. *)
Fixpoint splitlines_from (s : list N) (cur : list N) : list (list N) :=
  match s with
  | [] =>
      match cur with [] => [] | _ => [cur] end
  | c :: rest =>
      if is_linebreak c then
        cur :: match rest with
               | c' :: rest' =>
                   if ((c =? CR) && (c' =? LF))%N
                   then splitlines_from rest' []
                   else splitlines_from rest []
               | [] => splitlines_from rest []
               end
      else splitlines_from rest (cur ++ [c])
  end.

Definition splitlines (s : list N) : list (list N) :=
  splitlines_from s [].

(** No code point of [s] is a line boundary. *)
Definition one_line (s : list N) : bool :=
  forallb (fun c => negb (is_linebreak c)) s.

(** The last code point of [s] is a line boundary. *)
Definition ends_in_linebreak (s : list N) : bool :=
  match last s with
  | Some c => is_linebreak c
  | None => false
  end.

(** Each entry followed by a line feed, one after the other. *)
Fixpoint lines_text (entries : list (list N)) : list N :=
  match entries with
  | [] => []
  | e :: rest => e ++ LF :: lines_text rest
  end.

End PyText.

(** ** etk/etk.py: the static methods that read files, and module
    discovery *)

Module EtkFiles.

(** What [open] and [json.load] raise. *)
Inductive io_exn : Type :=
  | OSError
  | JSONDecodeError.

Section Glossary.

(** [J]: the values [json.load] returns. *)
Context {J : Type}.

(** [open(file_path).read()]: the text of the file as code points, [None]
    when the file cannot be opened or read. *)
Variable read_text : string -> option (list N).

(** [json.load] on the text of a file: [None] when it raises. *)
Variable json_load : list N -> option J.

(** What [load_glossary] returns: the lines of the file, or whatever
    value the JSON file holds. *)
Inductive glossary : Type :=
  | GlossaryLines (entries : list (list N))
  | GlossaryJson (value : J).

Definition load_glossary (file_path : string) (read_json : bool)
    : io_exn + glossary :=
  match read_text file_path with
  | None => inl OSError
  | Some content =>
      if read_json then
        match json_load content with
        | Some value => inr (GlossaryJson value)
        | None => inl JSONDecodeError
        end
      else inr (GlossaryLines (PyText.splitlines content))
  end.

(** [load_spacy_rule] *)
Definition load_spacy_rule (file_path : string) : io_exn + J :=
  match read_text file_path with
  | None => inl OSError
  | Some content =>
      match json_load content with
      | Some value => inr value
      | None => inl JSONDecodeError
      end
  end.

End Glossary.

Section Discovery.

(** [EM]: the module instances. *)
Context {EM : Type}.

(** A class object, as [classes_in_module] and [load_ems] look at it:
    [issubclass(cls, ETKModule)], [cls.__module__], and what calling
    [cls(self)] gives ([None] when the constructor raises). *)
Record PyClass : Type := {
  cls_is_etk_module : bool;
  cls_module : string;
  cls_new : option EM
}.

(** A value of a module's [__dict__]: a class ([isinstance(v, type)]) or
    anything else. *)
Inductive PyValue : Type :=
  | PyType (cls : PyClass)
  | PyObject.

(** An imported module: [__name__] and [__dict__], the latter as its
    items in iteration order. *)
Record PyModule : Type := {
  mod_name : string;
  mod_dict : list (string * PyValue)
}.

Definition classes_in_module (module : PyModule) : list PyClass :=
  omap (fun item : string * PyValue =>
          match item.2 with
          | PyType cls =>
              if cls_is_etk_module cls
                 && String.eqb (cls_module cls) (mod_name module)
              then Some cls else None
          | PyObject => None
          end)
       (mod_dict module).

(** [os.listdir]: [None] when it raises. *)
Variable listdir : string -> option (list string).

(** [importlib.import_module]: [None] when it raises. *)
Variable import_module : string -> option PyModule.

(** The test on a file name in [load_ems]. *)
Definition is_em_file (file_name : string) : bool :=
  PyText.startswith "em_" file_name && PyText.endswith ".py" file_name.

(** The name handed to [import_module] for a file of the directory. *)
Definition module_name (modules_path file_name : string) : string :=
  String.append modules_path
    (String.append "." (PyText.drop_last 3 file_name)).

(** [em_lst.append(em(self))] for the classes of one module, in order:
    [None] when a constructor raises. *)
Fixpoint instantiate (classes : list PyClass) : option (list EM) :=
  match classes with
  | [] => Some []
  | cls :: rest =>
      match cls_new cls with
      | None => None
      | Some em =>
          match instantiate rest with
          | None => None
          | Some ems => Some (em :: ems)
          end
      end
  end.

(** The [for file_name in ...] loop of [load_ems]: [None] when an import
    or a constructor raises. *)
Fixpoint import_ems (modules_path : string) (files : list string)
    : option (list EM) :=
  match files with
  | [] => Some []
  | file_name :: rest =>
      if is_em_file file_name then
        match import_module (module_name modules_path file_name) with
        | None => None
        | Some this_module =>
            match instantiate (classes_in_module this_module) with
            | None => None
            | Some ems =>
                match import_ems modules_path rest with
                | None => None
                | Some more => Some (ems ++ more)%list
                end
            end
        end
      else import_ems modules_path rest
  end.

(** The first [try] block of [load_ems]. *)
Definition discover (modules_path : string) : option (list EM) :=
  match listdir modules_path with
  | None => None
  | Some files => import_ems modules_path files
  end.

(** [load_ems] with the block above for its first [try]. *)
Definition load_ems (modules_path : string) : result (list EM) :=
  Etk.load_ems discover modules_path.

End Discovery.

End EtkFiles.

(** ** More concrete collaborators *)

Module Sample.

(** Three modules that select every document; the second one raises. *)
Inductive step : Type :=
  | Good
  | Bad
  | Late.

Definition step_module : Etk.ETKModule (list string) step := {|
  Etk.document_selector m doc := true;
  Etk.process_document m doc :=
    match m with
    | Good => Ok (doc ++ ["good"])%list
    | Bad => Raise (ModuleError "bad")
    | Late => Ok (doc ++ ["late"])%list
    end
|}.

Definition with_failure
    : Etk.ETK (Compiled := list string) (Schema := unit) (EM := step) :=
  {| Etk.parser := Demo.parse; Etk.parsed := ∅; Etk.kg_schema := None;
     Etk.em_lst := Some [Good; Bad; Late];
     Etk.error_policy := Some Etk.PROCESS |}.

(** An engine whose modules select no document. *)
Definition idle
    : Etk.ETK (Compiled := list string) (Schema := unit) (EM := Demo.em) :=
  {| Etk.parser := Demo.parse; Etk.parsed := ∅; Etk.kg_schema := None;
     Etk.em_lst := Some [Demo.IdleModule; Demo.IdleModule];
     Etk.error_policy := Some Etk.PROCESS |}.

(** A few text files; the second entry of [names] holds U+00E9, the
    last one is the two code points U+4E2D U+6587. *)
Definition names : list (list N) :=
  [PyText.codes "Pedro"; []; [74; 111; 115; 233]%N; [20013; 25991]%N].

Definition unfinished : list N :=
  (PyText.codes "Pedro" ++ PyText.LF :: PyText.codes "Mayank")%list.

Definition read_text (file_path : string) : option (list N) :=
  if String.eqb file_path "names.txt" then Some (PyText.lines_text names)
  else if String.eqb file_path "unfinished.txt" then Some unfinished
  else if String.eqb file_path "finished.txt"
       then Some (unfinished ++ [PyText.LF])%list
  else None.

Definition json_load (content : list N) : option unit := None.

(** A directory [ems] with one module file among other files, a
    directory [broken] whose module file does not import, and a directory
    [notes] without module files. *)
Definition listdir (modules_path : string) : option (list string) :=
  if String.eqb modules_path "ems"
  then Some ["README.md"; "em_names.py"; "helper.py"]
  else if String.eqb modules_path "broken" then Some ["em_bad.py"]
  else if String.eqb modules_path "notes" then Some ["notes.txt"]
  else None.

(** The class [ETKModule] as [em_names.py] imports it, and the class the
    file defines. *)
Definition base_class : EtkFiles.PyClass (EM := Demo.em) :=
  {| EtkFiles.cls_is_etk_module := true;
     EtkFiles.cls_module := "etk.etk_module";
     EtkFiles.cls_new := Some Demo.IdleModule |}.

Definition name_class : EtkFiles.PyClass (EM := Demo.em) :=
  {| EtkFiles.cls_is_etk_module := true;
     EtkFiles.cls_module := "ems.em_names";
     EtkFiles.cls_new := Some Demo.DeveloperModule |}.

Definition em_names : EtkFiles.PyModule (EM := Demo.em) :=
  {| EtkFiles.mod_name := "ems.em_names";
     EtkFiles.mod_dict :=
       [("ETKModule", EtkFiles.PyType base_class);
        ("json", EtkFiles.PyObject);
        ("NameModule", EtkFiles.PyType name_class)] |}.

Definition import_module (name : string)
    : option (EtkFiles.PyModule (EM := Demo.em)) :=
  if String.eqb name "ems.em_names" then Some em_names else None.

End Sample.

(** ** Reading the expected list of the unit test *)

Module TestReading.

(** The three fields of an entry of [token_attrs]. *)
Definition orth (a : TestTokenizer.attrs) : string := a.1.1.
Definition idx (a : TestTokenizer.attrs) : nat := a.1.2.






(** The tokens as spans: text and start offset. *)
Definition spans (toks : list TestTokenizer.attrs) : list Tokenizer.Span :=
  map (fun a => {| Tokenizer.span_start := idx a;
                   Tokenizer.span_text := orth a |}) toks.

End TestReading.

(** ** What the module loop is to do *)

Module EtkSpec.

Section Loop.

Context {Doc KG EM : Type}.
Context `{Etk.ETKModule Doc EM}.
Variable doc_kg : Doc -> KG.

(** The loop of [process_ems] in the words of its description, as a
    relation between the module list, the document given, the calls made
    and the outcome: for each module in list order, [document_selector] is
    called on the document as it is then; when it answers false the module
    is skipped and the document stays; when it answers true
    [process_document] is called on that document and the document it
    leaves goes to the next module, or the exception it raises ends the
    loop; after the last module the outcome is the document with its
    [kg]. *)
Inductive selects_then_processes
    : list EM -> Doc -> list (Etk.call Doc EM) -> result (Doc * KG) -> Prop :=
  | loop_end doc :
      selects_then_processes [] doc [] (Ok (doc, doc_kg doc))
  | loop_skipped m rest doc calls r :
      Etk.document_selector m doc = false ->
      selects_then_processes rest doc calls r ->
      selects_then_processes (m :: rest) doc
        (Etk.CallSelector m doc false :: calls) r
  | loop_processed m rest doc doc' calls r :
      Etk.document_selector m doc = true ->
      Etk.process_document m doc = Ok doc' ->
      selects_then_processes rest doc' calls r ->
      selects_then_processes (m :: rest) doc
        (Etk.CallSelector m doc true :: Etk.CallProcess m doc :: calls) r
  | loop_raised m rest doc e :
      Etk.document_selector m doc = true ->
      Etk.process_document m doc = Raise e ->
      selects_then_processes (m :: rest) doc
        [Etk.CallSelector m doc true; Etk.CallProcess m doc] (Raise e).

End Loop.

End EtkSpec.

(** * Properties of the engine *)

Section EngineFacts.

Context {Compiled Doc KG Schema EM : Type}.
Context `{Etk.ETKModule Doc EM}.
Variable jsonpath_ng_parse : string -> option Compiled.
Variable doc_kg : Doc -> KG.
Variable discover : string -> option (list EM).

Abbreviation ETK := (Etk.ETK (Compiled := Compiled) (Schema := Schema) (EM := EM)).
Abbreviation reachable := (Etk.reachable (Schema := Schema) jsonpath_ng_parse discover).
Abbreviation cache_sound := (Etk.cache_sound (Schema := Schema) (EM := EM) jsonpath_ng_parse).

Implicit Types (self : ETK) (jsonpath : string) (doc : Doc) (ems : list EM).

(** *** The constructor *)

Lemma select_error_policy_raise_or_process (policy : string) :
  Etk.select_error_policy policy
  = Some (if String.eqb (PyStr.lower policy) "raise_error"
          then Etk.RAISE else Etk.PROCESS).
Proof.
  unfold Etk.select_error_policy.
  by destruct (String.eqb (PyStr.lower policy) "raise_error").
Qed.

Lemma init_fields kg_schema modules policy self :
  Etk.__init__ jsonpath_ng_parse discover kg_schema modules policy = Ok self ->
  Etk.parser self = jsonpath_ng_parse
  /\ Etk.parsed self = ∅
  /\ Etk.kg_schema self = kg_schema
  /\ Etk.error_policy self = Etk.select_error_policy policy.
Proof.
  unfold Etk.__init__. intros Hinit.
  repeat case_match; simplify_eq; done.
Qed.

(** *** The compiled-query cache *)

Lemma parse_json_path_cached self jsonpath c :
  Etk.parsed self !! jsonpath = Some c ->
  Etk.parse_json_path self jsonpath = (self, [], Ok c).
Proof. unfold Etk.parse_json_path. by intros ->. Qed.

Lemma parse_json_path_parser self jsonpath :
  Etk.parser (Etk.parse_json_path self jsonpath).1.1 = Etk.parser self.
Proof. unfold Etk.parse_json_path. by repeat case_match. Qed.

(** A call never drops or changes an entry of the cache. *)
Lemma parse_json_path_keeps self jsonpath p c :
  Etk.parsed self !! p = Some c ->
  Etk.parsed (Etk.parse_json_path self jsonpath).1.1 !! p = Some c.
Proof.
  intros Hp. unfold Etk.parse_json_path.
  destruct (Etk.parsed self !! jsonpath) eqn:Hc; [done |].
  destruct (Etk.parser self jsonpath); [| done].
  cbn. rewrite lookup_insert_ne; [done |]. congruence.
Qed.

Lemma later_keeps self self' p c :
  Etk.later self self' ->
  Etk.parsed self !! p = Some c -> Etk.parsed self' !! p = Some c.
Proof.
  induction 1 as [| self' q _ IH]; [done |].
  intros Hp. by apply parse_json_path_keeps, IH.
Qed.

Lemma parse_json_path_sound self jsonpath :
  cache_sound self -> cache_sound (Etk.parse_json_path self jsonpath).1.1.
Proof.
  intros [Hparser Hcache]. split.
  - by rewrite parse_json_path_parser.
  - unfold Etk.parse_json_path.
    destruct (Etk.parsed self !! jsonpath) eqn:Hc; [done |].
    destruct (Etk.parser self jsonpath) as [c |] eqn:Hparse; [| done].
    cbn. intros p c' Hp.
    destruct (decide (jsonpath = p)) as [-> | Hne].
    + rewrite lookup_insert_eq in Hp. congruence.
    + rewrite lookup_insert_ne in Hp; auto.
Qed.

Lemma reachable_sound self : reachable self -> cache_sound self.
Proof.
  induction 1 as [kg_schema modules policy self Hinit | self q _ IH].
  - apply init_fields in Hinit as (Hparser & Hparsed & _).
    split; [done |]. intros p c. by rewrite Hparsed, lookup_empty.
  - by apply parse_json_path_sound.
Qed.

(** *** Loading modules *)

(** [load_ems] returns the modules in the order the directory gave them. *)
Lemma load_ems_order modules_path m ems :
  discover (PyStr.strip "/" (PyStr.strip "." modules_path)) = Some (m :: ems) ->
  Etk.load_ems discover modules_path = Ok (m :: ems).
Proof. unfold Etk.load_ems. by intros ->. Qed.

(** *** The module loop *)

Lemma run_ems_calls ems doc :
  (forall m d, Etk.CallProcess m d ∈ (Etk.run_ems ems doc).1
               <-> Etk.CallSelector m d true ∈ (Etk.run_ems ems doc).1)
  /\ Etk.selector_modules (Etk.run_ems ems doc).1 `prefix_of` ems
  /\ (is_ok (Etk.run_ems ems doc).2 = true ->
      Etk.selector_modules (Etk.run_ems ems doc).1 = ems)
  /\ ((forall m d, m ∈ ems -> is_ok (Etk.process_document m d) = true) ->
      is_ok (Etk.run_ems ems doc).2 = true).
Proof.
  revert doc. induction ems as [| a_em rest IH]; intros doc.
  - cbn. repeat split; try done.
    + by intros ?%elem_of_nil.
    + by intros ?%elem_of_nil.
  - cbn [Etk.run_ems].
    destruct (Etk.document_selector a_em doc) eqn:Hsel.
    + destruct (Etk.process_document a_em doc) as [doc' | e] eqn:Hproc.
      * destruct (IH doc') as (Hiff & Hpre & Hall & Hok).
        destruct (Etk.run_ems rest doc') as [calls r]. cbn in *.
        repeat split.
        -- rewrite !elem_of_cons. intros [? | [? | Hin]]; try done.
           ++ simplify_eq. by left.
           ++ right; right. by apply Hiff.
        -- rewrite !elem_of_cons. intros [? | [? | Hin]]; try done.
           ++ simplify_eq. right; by left.
           ++ right; right. by apply Hiff.
        -- by apply prefix_cons.
        -- intros Hr. by rewrite Hall.
        -- intros Hmods. apply Hok. intros m d Hm. apply Hmods. by right.
      * cbn. repeat split.
        -- rewrite !elem_of_cons. intros [? | [? | ?%elem_of_nil]]; try done.
           simplify_eq. by left.
        -- rewrite !elem_of_cons. intros [? | [? | ?%elem_of_nil]]; try done.
           simplify_eq. right; by left.
        -- apply prefix_cons, prefix_nil.
        -- done.
        -- intros Hmods. specialize (Hmods a_em doc). rewrite Hproc in Hmods.
           apply Hmods. by left.
    + destruct (IH doc) as (Hiff & Hpre & Hall & Hok).
      destruct (Etk.run_ems rest doc) as [calls r]. cbn in *.
      repeat split.
      * rewrite !elem_of_cons. intros [? | Hin]; try done.
        right. by apply Hiff.
      * rewrite !elem_of_cons. intros [? | Hin]; try done.
        right. by apply Hiff.
      * by apply prefix_cons.
      * intros Hr. by rewrite Hall.
      * intros Hmods. apply Hok. intros m d Hm. apply Hmods. by right.
Qed.

Lemma process_ems_unfold self ems doc :
  Etk.em_lst self = Some ems ->
  Etk.process_ems doc_kg self doc
  = ((Etk.run_ems ems doc).1,
     match (Etk.run_ems ems doc).2 with
     | Ok doc' => Ok (doc', doc_kg doc')
     | Raise e => Raise e
     end).
Proof.
  unfold Etk.process_ems. intros ->. by destruct (Etk.run_ems ems doc).
Qed.

(** *** Error policy *)

(** C2: the claim says each of the four selector strings sets the policy it
    names.  On the code, ["throw_extraction"] and ["throw_document"] (in any
    letter case) end with [PROCESS]: their assignment is overwritten by the
    [else] of the [if] on ["raise_error"] that follows. *)
Theorem init_throw_policies_end_as_process kg_schema :
  (exists self,
      Etk.__init__ jsonpath_ng_parse discover kg_schema Etk.ModulesNone
        "throw_extraction" = Ok self
      /\ Etk.error_policy self = Some Etk.PROCESS)
  /\ (exists self,
      Etk.__init__ jsonpath_ng_parse discover kg_schema Etk.ModulesNone
        "THROW_DOCUMENT" = Ok self
      /\ Etk.error_policy self = Some Etk.PROCESS).
Proof. split; eexists; split; reflexivity. Qed.

(** *** Compiled queries *)

(** C4: on an engine built by the constructor and used through
    [parse_json_path] only, a call with a string the parser rejects raises
    [InvalidJsonPathError] and leaves the engine as it was; so does every
    one of any number of calls in a row. *)
Theorem parse_json_path_invalid_raises self jsonpath :
  reachable self ->
  jsonpath_ng_parse jsonpath = None ->
  Etk.parse_json_path self jsonpath
  = (self, [jsonpath], Raise (InvalidJsonPathError "Invalid Json Path"))
  /\ forall n,
      Etk.attempts n self jsonpath
      = replicate n (Raise (InvalidJsonPathError "Invalid Json Path")).
Proof.
  intros [Hparser Hcache]%reachable_sound Hbad.
  assert (Etk.parse_json_path self jsonpath
          = (self, [jsonpath], Raise (InvalidJsonPathError "Invalid Json Path")))
    as Hcall.
  { unfold Etk.parse_json_path.
    destruct (Etk.parsed self !! jsonpath) as [c |] eqn:Hc.
    - apply Hcache in Hc. congruence.
    - by rewrite Hparser, Hbad. }
  split; [exact Hcall |].
  induction n as [| n IH]; [done |].
  cbn [Etk.attempts replicate]. rewrite Hcall. by rewrite IH.
Qed.

(** C5: once a call of [parse_json_path] on a string has returned a compiled
    query, the string is a key of the cache, and every later call with the
    same string, whatever other strings were compiled in between, returns
    that same compiled query and hands nothing to the parser. *)
Theorem parse_json_path_reuses_compiled self jsonpath self1 handed c self2 :
  Etk.parse_json_path self jsonpath = (self1, handed, Ok c) ->
  Etk.later self1 self2 ->
  Etk.parsed self1 !! jsonpath = Some c
  /\ Etk.parse_json_path self2 jsonpath = (self2, [], Ok c).
Proof.
  intros Hfirst Hlater.
  assert (Etk.parsed self1 !! jsonpath = Some c) as Hkey.
  { unfold Etk.parse_json_path in Hfirst.
    destruct (Etk.parsed self !! jsonpath) as [c0 |] eqn:Hc.
    - by simplify_eq.
    - destruct (Etk.parser self jsonpath); simplify_eq.
      cbn. apply lookup_insert_eq. }
  split; [exact Hkey |].
  apply parse_json_path_cached. by eapply later_keeps.
Qed.

(** C9: for a string that is not a key of the cache: when the parser rejects
    it, the call raises [InvalidJsonPathError] and the engine, its cache
    included, is as before; when the parser accepts it, the call returns
    the compiled query and the cache is the old one with that one string
    added. *)
Theorem parse_json_path_miss self jsonpath :
  Etk.parsed self !! jsonpath = None ->
  (Etk.parser self jsonpath = None ->
   Etk.parse_json_path self jsonpath
   = (self, [jsonpath], Raise (InvalidJsonPathError "Invalid Json Path")))
  /\ (forall c, Etk.parser self jsonpath = Some c ->
      (Etk.parse_json_path self jsonpath).2 = Ok c
      /\ Etk.parsed (Etk.parse_json_path self jsonpath).1.1
         = <[jsonpath := c]> (Etk.parsed self)
      /\ size (Etk.parsed (Etk.parse_json_path self jsonpath).1.1)
         = S (size (Etk.parsed self))
      /\ forall p, p <> jsonpath ->
           Etk.parsed (Etk.parse_json_path self jsonpath).1.1 !! p
           = Etk.parsed self !! p).
Proof.
  intros Hmiss. unfold Etk.parse_json_path. rewrite Hmiss. split.
  - by intros ->.
  - intros c ->. cbn. repeat split.
    + by apply map_size_insert_None.
    + intros p Hp. by apply lookup_insert_ne.
Qed.

(** *** Running the modules *)

Lemma run_ems_answers ems doc m d answer :
  Etk.CallSelector m d answer ∈ (Etk.run_ems ems doc).1 ->
  answer = Etk.document_selector m d.
Proof.
  revert doc. induction ems as [| a_em rest IH]; intros doc.
  - cbn. by intros ?%elem_of_nil.
  - cbn [Etk.run_ems].
    destruct (Etk.document_selector a_em doc) eqn:Hsel.
    + destruct (Etk.process_document a_em doc) as [doc' | e].
      * specialize (IH doc').
        destruct (Etk.run_ems rest doc') as [calls r]. cbn in *.
        rewrite !elem_of_cons. intros [? | [? | Hin]]; [| done | by apply IH].
        by simplify_eq.
      * cbn. rewrite !elem_of_cons.
        intros [? | [? | ?%elem_of_nil]]; try done. by simplify_eq.
    + specialize (IH doc).
      destruct (Etk.run_ems rest doc) as [calls r]. cbn in *.
      rewrite !elem_of_cons. intros [? | Hin]; [| by apply IH].
      by simplify_eq.
Qed.

Lemma run_ems_follows ems doc :
  EtkSpec.selects_then_processes doc_kg ems doc (Etk.run_ems ems doc).1
    match (Etk.run_ems ems doc).2 with
    | Ok doc' => Ok (doc', doc_kg doc')
    | Raise e => Raise e
    end.
Proof.
  revert doc. induction ems as [| a_em rest IH]; intros doc.
  - cbn. apply EtkSpec.loop_end.
  - cbn [Etk.run_ems].
    destruct (Etk.document_selector a_em doc) eqn:Hsel.
    + destruct (Etk.process_document a_em doc) as [doc' | e] eqn:Hproc.
      * specialize (IH doc').
        destruct (Etk.run_ems rest doc') as [calls r]. cbn in *.
        by eapply EtkSpec.loop_processed.
      * cbn. by apply EtkSpec.loop_raised.
    + specialize (IH doc).
      destruct (Etk.run_ems rest doc) as [calls r]. cbn in *.
      by apply EtkSpec.loop_skipped.
Qed.

(** The description leaves no choice: the calls and the outcome are
    determined by the module list and the document. *)
Lemma selects_then_processes_unique ems doc calls1 r1 calls2 r2 :
  EtkSpec.selects_then_processes doc_kg ems doc calls1 r1 ->
  EtkSpec.selects_then_processes doc_kg ems doc calls2 r2 ->
  calls1 = calls2 /\ r1 = r2.
Proof.
  intros H1. revert calls2 r2.
  induction H1 as [doc | m rest doc calls r Hsel _ IH
                   | m rest doc doc' calls r Hsel Hproc _ IH
                   | m rest doc e Hsel Hproc];
    intros calls2 r2 H2; inversion H2; subst; try congruence.
  - done.
  - destruct (IH _ _ ltac:(eassumption)) as [-> ->]. done.
  - assert (doc' = doc'0) as -> by congruence.
    destruct (IH _ _ ltac:(eassumption)) as [-> ->]. done.
  - split; [done |]. congruence.
Qed.

(** C8: on an engine whose module list is [ems], the calls [process_ems]
    makes and what it returns are the ones of the description
    [selects_then_processes], and the only ones it admits: the modules are
    taken in list order, each module's [document_selector] is called on
    the document as the modules before have left it, [process_document] is
    called on that same document exactly when the answer is true, and
    after the last module the result is the document with its [kg].  So
    every logged answer is the selector's answer; [process_document] is
    called on a module and a document exactly when that module's selector
    has answered true on that document; the selectors are called in list
    order; when the loop ends without an exception every module's selector
    was called and the result is the document with its [kg]; and the loop
    does end so when no module of the list raises. *)
Theorem process_ems_selects_then_processes self ems doc :
  Etk.em_lst self = Some ems ->
  EtkSpec.selects_then_processes doc_kg ems doc
    (Etk.process_ems doc_kg self doc).1 (Etk.process_ems doc_kg self doc).2
  /\ (forall calls r,
        EtkSpec.selects_then_processes doc_kg ems doc calls r ->
        Etk.process_ems doc_kg self doc = (calls, r))
  /\ (forall m d answer,
        Etk.CallSelector m d answer ∈ (Etk.process_ems doc_kg self doc).1 ->
        answer = Etk.document_selector m d)
  /\ (forall m d, Etk.CallProcess m d ∈ (Etk.process_ems doc_kg self doc).1
               <-> Etk.CallSelector m d true ∈ (Etk.process_ems doc_kg self doc).1)
  /\ Etk.selector_modules (Etk.process_ems doc_kg self doc).1 `prefix_of` ems
  /\ (forall doc' kg,
        (Etk.process_ems doc_kg self doc).2 = Ok (doc', kg) ->
        kg = doc_kg doc'
        /\ Etk.selector_modules (Etk.process_ems doc_kg self doc).1 = ems)
  /\ ((forall m d, m ∈ ems -> is_ok (Etk.process_document m d) = true) ->
      exists doc',
        (Etk.process_ems doc_kg self doc).2 = Ok (doc', doc_kg doc')).
Proof.
  intros Hems. rewrite (process_ems_unfold _ _ _ Hems). cbn [fst snd].
  destruct (run_ems_calls ems doc) as (Hiff & Hpre & Hall & Hok).
  pose proof (run_ems_follows ems doc) as Hfollows.
  split; [exact Hfollows |]. split.
  { intros calls r Hspec.
    by destruct (selects_then_processes_unique _ _ _ _ _ _ Hfollows Hspec)
      as [-> ->]. }
  split; [intros m d answer; apply run_ems_answers |].
  split; [exact Hiff |]. split; [exact Hpre |]. split.
  - intros doc' kg Hr.
    destruct (Etk.run_ems ems doc).2 as [doc'' |]; [| done].
    simplify_eq. split; [done |]. by apply Hall.
  - intros Hmods. specialize (Hok Hmods).
    destruct (Etk.run_ems ems doc).2 as [doc' |]; [by exists doc' | done].
Qed.

(** C10: the constructor called with [modules=None] returns an engine on
    which [em_lst] was never assigned, and [process_ems] on that engine
    raises [AttributeError] before it calls any module. *)
Theorem init_without_modules_then_process_ems kg_schema policy :
  exists self,
    Etk.__init__ jsonpath_ng_parse discover kg_schema Etk.ModulesNone policy
    = Ok self
    /\ Etk.em_lst self = None
    /\ forall doc,
        Etk.process_ems doc_kg self doc = ([], Raise (AttributeError "em_lst")).
Proof. eexists. split; [reflexivity |]. split; reflexivity. Qed.

End EngineFacts.

(** *** The engine on concrete collaborators *)

Lemma demo_bare_built : Demo.new_etk Etk.ModulesNone "process" = Ok Demo.bare.
Proof. reflexivity. Qed.

Lemma demo_loaded_built :
  Demo.new_etk (Etk.ModulesPath "./ems/") "process" = Ok Demo.loaded.
Proof. reflexivity. Qed.

Lemma topological_sort_returns_argument {A : Type} (lst : list A) :
  Etk.topological_sort lst = lst.
Proof. reflexivity. Qed.

(** C3: the claim says a module runs after the modules it depends on,
    whatever the registration order, and that a dependency cycle fails the
    load.  On the code, [topological_sort] returns its argument: with
    [TeamModule] registered before the [DeveloperModule] it depends on,
    [load_ems] keeps that order and [process_ems] runs [TeamModule] first,
    on a document that has no [developer] field yet; and the load succeeds
    on modules that depend on each other. *)
Theorem load_ems_keeps_registration_order :
  Etk.load_ems Demo.discover "./ems/"
  = Ok [Demo.TeamModule; Demo.IdleModule; Demo.DeveloperModule]
  /\ dependencies_first Demo.depends_on
       [Demo.TeamModule; Demo.IdleModule; Demo.DeveloperModule] = false
  /\ Etk.process_ems Demo.doc_kg Demo.loaded []
     = ([Etk.CallSelector Demo.TeamModule [] true;
         Etk.CallProcess Demo.TeamModule [];
         Etk.CallSelector Demo.IdleModule ["team without developer"] false;
         Etk.CallSelector Demo.DeveloperModule ["team without developer"] true;
         Etk.CallProcess Demo.DeveloperModule ["team without developer"]],
        Ok (["team without developer"; "developer"],
            ["team without developer"; "developer"]))
  /\ has_two_cycle Demo.cyclic
       [Demo.TeamModule; Demo.IdleModule; Demo.DeveloperModule] = true.
Proof. repeat split. Qed.

Lemma parse_json_path_invalid_raises_witness :
  Etk.reachable Demo.parse Demo.discover Demo.bare
  /\ Demo.parse "projects..members" = None
  /\ Etk.parse_json_path Demo.bare "projects..members"
     = (Demo.bare, ["projects..members"],
        Raise (InvalidJsonPathError "Invalid Json Path"))
  /\ forall n,
      Etk.attempts n Demo.bare "projects..members"
      = replicate n (Raise (InvalidJsonPathError "Invalid Json Path")).
Proof.
  assert (Etk.reachable Demo.parse Demo.discover Demo.bare) as Hreach.
  { exact (Etk.reachable_init Demo.parse Demo.discover None Etk.ModulesNone
             "process" Demo.bare eq_refl). }
  split; [exact Hreach |]. split; [reflexivity |].
  exact (parse_json_path_invalid_raises Demo.parse Demo.discover Demo.bare
           "projects..members" Hreach eq_refl).
Defined.

Lemma parse_json_path_reuses_compiled_witness :
  Etk.parse_json_path Demo.bare "projects.members"
  = (Demo.after_first, ["projects.members"], Ok ["projects"; "members"])
  /\ Etk.later Demo.after_first Demo.after_second
  /\ Etk.parsed Demo.after_first !! "projects.members"
     = Some ["projects"; "members"]
  /\ Etk.parse_json_path Demo.after_second "projects.members"
     = (Demo.after_second, [], Ok ["projects"; "members"]).
Proof.
  assert (Etk.later Demo.after_first Demo.after_second) as Hlater.
  { exact (Etk.later_parse _ _ "name" (Etk.later_now _)). }
  split; [reflexivity |]. split; [exact Hlater |].
  exact (parse_json_path_reuses_compiled Demo.bare "projects.members"
           Demo.after_first ["projects.members"] ["projects"; "members"]
           Demo.after_second eq_refl Hlater).
Defined.

Lemma parse_json_path_miss_witness :
  Etk.parsed Demo.bare !! "projects.members" = None
  /\ (Etk.parser Demo.bare "projects.members" = None ->
      Etk.parse_json_path Demo.bare "projects.members"
      = (Demo.bare, ["projects.members"],
         Raise (InvalidJsonPathError "Invalid Json Path")))
  /\ (forall c, Etk.parser Demo.bare "projects.members" = Some c ->
      (Etk.parse_json_path Demo.bare "projects.members").2 = Ok c
      /\ Etk.parsed (Etk.parse_json_path Demo.bare "projects.members").1.1
         = <["projects.members" := c]> (Etk.parsed Demo.bare)
      /\ size (Etk.parsed (Etk.parse_json_path Demo.bare "projects.members").1.1)
         = S (size (Etk.parsed Demo.bare))
      /\ forall p, p <> "projects.members" ->
           Etk.parsed (Etk.parse_json_path Demo.bare "projects.members").1.1 !! p
           = Etk.parsed Demo.bare !! p).
Proof.
  split; [reflexivity |].
  exact (parse_json_path_miss Demo.bare "projects.members" eq_refl).
Defined.

Lemma process_ems_selects_then_processes_witness :
  Etk.em_lst Demo.loaded
  = Some [Demo.TeamModule; Demo.IdleModule; Demo.DeveloperModule]
  /\ EtkSpec.selects_then_processes Demo.doc_kg
       [Demo.TeamModule; Demo.IdleModule; Demo.DeveloperModule] []
       (Etk.process_ems Demo.doc_kg Demo.loaded []).1
       (Etk.process_ems Demo.doc_kg Demo.loaded []).2
  /\ (forall calls r,
        EtkSpec.selects_then_processes Demo.doc_kg
          [Demo.TeamModule; Demo.IdleModule; Demo.DeveloperModule] [] calls r ->
        Etk.process_ems Demo.doc_kg Demo.loaded [] = (calls, r))
  /\ (forall m d answer,
        Etk.CallSelector m d answer
        ∈ (Etk.process_ems Demo.doc_kg Demo.loaded []).1 ->
        answer = Etk.document_selector m d)
  /\ (forall m d,
        Etk.CallProcess m d ∈ (Etk.process_ems Demo.doc_kg Demo.loaded []).1
        <-> Etk.CallSelector m d true
            ∈ (Etk.process_ems Demo.doc_kg Demo.loaded []).1)
  /\ Etk.selector_modules (Etk.process_ems Demo.doc_kg Demo.loaded []).1
     `prefix_of` [Demo.TeamModule; Demo.IdleModule; Demo.DeveloperModule]
  /\ (forall doc' kg,
        (Etk.process_ems Demo.doc_kg Demo.loaded []).2 = Ok (doc', kg) ->
        kg = Demo.doc_kg doc'
        /\ Etk.selector_modules (Etk.process_ems Demo.doc_kg Demo.loaded []).1
           = [Demo.TeamModule; Demo.IdleModule; Demo.DeveloperModule])
  /\ ((forall m d,
         m ∈ [Demo.TeamModule; Demo.IdleModule; Demo.DeveloperModule] ->
         is_ok (Etk.process_document m d) = true) ->
      exists doc',
        (Etk.process_ems Demo.doc_kg Demo.loaded []).2
        = Ok (doc', Demo.doc_kg doc')).
Proof.
  split; [reflexivity |].
  exact (process_ems_selects_then_processes Demo.doc_kg Demo.loaded
           [Demo.TeamModule; Demo.IdleModule; Demo.DeveloperModule] []
           eq_refl).
Defined.

Lemma demo_modules_do_not_raise m (d : list string) :
  is_ok (Etk.process_document m d) = true.
Proof. destruct m; cbn; [done | by case_match | done]. Qed.

(** * Properties of the tokenizer *)

Section Substring.

Implicit Types (s : string) (p a b n i : nat).

Lemma append_cons c s1 s2 :
  String.append (String c s1) s2 = String c (String.append s1 s2).
Proof. reflexivity. Qed.

Lemma append_empty_r s : String.append s EmptyString = s.
Proof.
  induction s as [| c s IH]; [done |]. by rewrite append_cons, IH.
Qed.

Lemma append_assoc s1 s2 s3 :
  String.append (String.append s1 s2) s3
  = String.append s1 (String.append s2 s3).
Proof.
  induction s1 as [| c s1 IH]; [done |]. by rewrite !append_cons, IH.
Qed.

Lemma substring_of_empty p n : substring p n EmptyString = EmptyString.
Proof. by destruct p, n. Qed.

Lemma substring_nothing s p : substring p 0 s = EmptyString.
Proof.
  revert p. induction s as [| c s IH]; intros p.
  - apply substring_of_empty.
  - destruct p as [| p]; [done |]. cbn. apply IH.
Qed.

(** Two adjacent stretches make one. *)
Lemma substring_adjacent s p a b :
  String.append (substring p a s) (substring (p + a) b s)
  = substring p (a + b) s.
Proof.
  revert p a. induction s as [| c s IH]; intros p a.
  - by rewrite !substring_of_empty.
  - destruct p as [| p].
    + destruct a as [| a]; [done |].
      cbn. rewrite append_cons. f_equal. apply (IH 0 a).
    + cbn. apply IH.
Qed.

Lemma substring_whole s : substring 0 (String.length s) s = s.
Proof. induction s as [| c s IH]; [done |]. cbn. by rewrite IH. Qed.

Lemma substring_length s p n :
  p + n <= String.length s -> String.length (substring p n s) = n.
Proof.
  revert p n. induction s as [| c s IH]; intros p n Hle; cbn in Hle.
  - assert (n = 0) as -> by lia. by rewrite substring_of_empty.
  - destruct p as [| p].
    + destruct n as [| n]; [done |]. cbn. rewrite (IH 0 n); [done | lia].
    + cbn. apply IH. lia.
Qed.

(** A stretch that stops where the text stops, put after the stretch
    before it. *)
Lemma substring_to_end s p q :
  p <= q <= String.length s ->
  String.append (substring p (q - p) s) (substring q (String.length s - q) s)
  = substring p (String.length s - p) s.
Proof.
  intros Hle.
  replace (String.length s - p) with ((q - p) + (String.length s - q)) by lia.
  rewrite <- substring_adjacent. do 2 f_equal. lia.
Qed.

Lemma append_length s1 s2 :
  String.length (String.append s1 s2) = String.length s1 + String.length s2.
Proof.
  induction s1 as [| c s1 IH]; [done |]. rewrite append_cons. cbn. by rewrite IH.
Qed.

Lemma substring_one_after pre c rest :
  substring (String.length pre) 1 (String.append pre (String c rest))
  = String c EmptyString.
Proof.
  induction pre as [| a pre IH]; [| by rewrite append_cons].
  cbn. by destruct rest.
Qed.

Lemma append_snoc pre c rest :
  String.append pre (String c rest)
  = String.append (String.append pre (String c EmptyString)) rest.
Proof. by rewrite append_assoc. Qed.

(** A stretch, then everything after it. *)
Lemma substring_then_rest s p n :
  p + n <= String.length s ->
  String.append (substring p n s)
    (substring (p + n) (String.length s - (p + n)) s)
  = substring p (String.length s - p) s.
Proof.
  intros Hle. rewrite substring_adjacent. f_equal. lia.
Qed.

End Substring.

Section TokenizerFacts.

Import Tokenizer.

Implicit Types (txt : string) (pos : nat) (spans : list Span)
  (toks : list Token).

Lemma reconstruct_cons t toks :
  reconstruct (t :: toks) = String.append (text t) (reconstruct toks).
Proof. reflexivity. Qed.

Lemma reconstruct_app toks1 toks2 :
  reconstruct (toks1 ++ toks2)
  = String.append (reconstruct toks1) (reconstruct toks2).
Proof.
  induction toks1 as [| t toks1 IH]; [done |].
  cbn [app]. by rewrite !reconstruct_cons, IH, append_assoc.
Qed.

(** Joining the texts with an empty separator is the fold. *)
Lemma concat_texts_reconstruct toks :
  String.concat EmptyString (map text toks) = reconstruct toks.
Proof.
  induction toks as [| t toks IH]; [done |].
  rewrite reconstruct_cons, <- IH.
  destruct toks as [| t' toks]; [| done].
  cbn. by rewrite append_empty_r.
Qed.

Lemma reconstruct_gap txt pos stop :
  pos <= stop ->
  reconstruct (gap_tokens txt pos stop) = substring pos (stop - pos) txt.
Proof.
  intros Hle. unfold gap_tokens.
  destruct (pos <? stop)%nat eqn:Hlt.
  - rewrite reconstruct_cons. apply append_empty_r.
  - apply Nat.ltb_ge in Hlt. replace (stop - pos) with 0 by lia.
    by rewrite substring_nothing.
Qed.

Lemma spans_ok_cons txt pos s spans :
  spans_ok txt pos (s :: spans) = true ->
  pos <= span_start s
  /\ span_start s + String.length (span_text s) <= String.length txt
  /\ substring (span_start s) (String.length (span_text s)) txt = span_text s
  /\ spans_ok txt (span_start s + String.length (span_text s)) spans = true.
Proof.
  cbn. rewrite !andb_true_iff.
  intros [[[H1 H2] H3] H4].
  apply Nat.leb_le in H1, H2. apply String.eqb_eq in H3. done.
Qed.

(** From any position, the tokens spell the rest of the text. *)
Lemma fill_gaps_spells_rest txt spans pos :
  spans_ok txt pos spans = true ->
  reconstruct (fill_gaps txt pos spans)
  = substring pos (String.length txt - pos) txt.
Proof.
  revert pos. induction spans as [| s spans IH]; intros pos Hok.
  - cbn in Hok. apply Nat.leb_le in Hok. cbn. by apply reconstruct_gap.
  - apply spans_ok_cons in Hok as (Hpos & Hend & Htext & Hrest).
    cbn [fill_gaps]. rewrite reconstruct_app, reconstruct_gap by done.
    rewrite reconstruct_cons, (IH _ Hrest). cbn [make_token text].
    pose proof (substring_then_rest txt (span_start s)
                  (String.length (span_text s)) Hend) as Hmid.
    rewrite Htext in Hmid. rewrite Hmid.
    apply substring_to_end. lia.
Qed.

Lemma contiguous_gap txt pos stop toks :
  pos <= stop <= String.length txt ->
  contiguous txt stop toks = true ->
  contiguous txt pos (gap_tokens txt pos stop ++ toks) = true.
Proof.
  intros Hle Htoks. unfold gap_tokens.
  destruct (pos <? stop)%nat eqn:Hlt.
  - apply Nat.ltb_lt in Hlt. cbn [app contiguous make_token offset text].
    rewrite substring_length by lia.
    rewrite Nat.eqb_refl, String.eqb_refl. cbn.
    by replace (pos + (stop - pos)) with stop by lia.
  - apply Nat.ltb_ge in Hlt. by replace pos with stop by lia.
Qed.

(** The tokens tile the text: no hole, no overlap. *)
Lemma fill_gaps_contiguous txt spans pos :
  spans_ok txt pos spans = true ->
  contiguous txt pos (fill_gaps txt pos spans) = true.
Proof.
  revert pos. induction spans as [| s spans IH]; intros pos Hok.
  - cbn in Hok. apply Nat.leb_le in Hok. cbn [fill_gaps].
    rewrite <- (app_nil_r (gap_tokens _ _ _)).
    apply contiguous_gap; [lia |]. cbn. apply Nat.eqb_refl.
  - apply spans_ok_cons in Hok as (Hpos & Hend & Htext & Hrest).
    cbn [fill_gaps]. apply contiguous_gap; [lia |].
    cbn [contiguous make_token offset text].
    rewrite Nat.eqb_refl, Htext, String.eqb_refl. cbn. by apply IH.
Qed.

Lemma get_some_lt s i c : String.get i s = Some c -> i < String.length s.
Proof.
  revert i. induction s as [| c' s IH]; intros i; [done |].
  destruct i as [| i]; cbn; [lia |]. intros Hget%IH. lia.
Qed.

(** In a tiling, every character of the text sits in some token, at the
    place the token's offset says. *)
Lemma contiguous_covers txt toks pos i c :
  contiguous txt pos toks = true ->
  pos <= i ->
  String.get i txt = Some c ->
  exists t, t ∈ toks /\ offset t <= i
            /\ String.get (i - offset t) (text t) = Some c.
Proof.
  revert pos. induction toks as [| t toks IH]; intros pos Htile Hpos Hget.
  - cbn in Htile. apply Nat.eqb_eq in Htile.
    apply get_some_lt in Hget. lia.
  - cbn in Htile. rewrite !andb_true_iff in Htile.
    destruct Htile as [[Hoff Htext] Hrest].
    apply Nat.eqb_eq in Hoff. apply String.eqb_eq in Htext.
    destruct (decide (i < pos + String.length (text t))) as [Hin | Hout].
    + exists t. split; [by left |]. split; [lia |].
      rewrite <- Htext, Hoff.
      rewrite substring_correct1 by lia.
      by replace (i - pos + pos) with i by lia.
    + destruct (IH (pos + String.length (text t)) Hrest) as (t' & Ht' & Hle & Hc);
        [lia | done |].
      exists t'. split; [by right | done].
Qed.

(** Every span of the provider is a token of the result. *)
Lemma fill_gaps_keeps_spans txt spans pos s :
  s ∈ spans ->
  make_token (span_start s) (span_text s) ∈ fill_gaps txt pos spans.
Proof.
  revert pos. induction spans as [| s' spans IH]; intros pos Hs.
  - by apply elem_of_nil in Hs.
  - cbn [fill_gaps]. apply elem_of_app. right.
    apply elem_of_cons in Hs as [-> | Hs]; [by left |].
    right. by apply IH.
Qed.

(** *** Round trip *)

(** C1: for every text on which the upstream provider keeps its contract
    (spans in order, inside the text, each with the text found at its start
    offset), [reconstruct] of the tokens of [tokenize] is the text. *)
Theorem reconstruct_tokenize provider txt :
  spans_ok txt 0 (provider txt) = true ->
  reconstruct (tokenize provider txt) = txt.
Proof.
  intros Hok. unfold tokenize.
  rewrite (fill_gaps_spells_rest _ _ _ Hok), Nat.sub_0_r.
  apply substring_whole.
Qed.

(** On the gap-filling model of the specification (not the tokenizer of
    the unit test, whose expected list has no token for a single blank):
    for every text on which the upstream provider keeps its contract,
    the texts of the tokens of [tokenize], joined in order, are the input;
    the tokens tile it (each starts where the one before stopped, so what
    the provider left out between two spans is a token too); every
    character of the input is in the token that covers its position; and
    every span of the provider is one of the tokens. *)
Theorem tokenize_texts_spell_input provider txt :
  spans_ok txt 0 (provider txt) = true ->
  String.concat EmptyString (map text (tokenize provider txt)) = txt
  /\ contiguous txt 0 (tokenize provider txt) = true
  /\ (forall i c, String.get i txt = Some c ->
      exists t, t ∈ tokenize provider txt /\ offset t <= i
                /\ String.get (i - offset t) (text t) = Some c)
  /\ (forall s, s ∈ provider txt ->
      make_token (span_start s) (span_text s) ∈ tokenize provider txt).
Proof.
  intros Hok.
  assert (contiguous txt 0 (tokenize provider txt) = true) as Htile
    by by apply fill_gaps_contiguous.
  split; [| split; [exact Htile | split]].
  - rewrite concat_texts_reconstruct. unfold tokenize.
    rewrite (fill_gaps_spells_rest _ _ _ Hok), Nat.sub_0_r.
    apply substring_whole.
  - intros i c Hget. eapply contiguous_covers; [exact Htile | lia | done].
  - intros s Hs. by apply fill_gaps_keeps_spans.
Qed.

(** On the gap-filling model of the specification (not the tokenizer of
    the unit test): when the upstream provider splits ["32.4 -32.1"] at
    the boundaries the unit test records for that stretch of its text
    ([32.4], [-] and [32.1], the blank left out), [tokenize] gives four
    tokens, of shapes
    [dd.d], blank, [-], [dd.d], at offsets 0, 4, 5, 6, and [reconstruct]
    gives the text back. *)
Theorem tokenize_worked_example provider :
  provider "32.4 -32.1"
  = [ {| span_start := 0; span_text := "32.4" |};
      {| span_start := 5; span_text := "-" |};
      {| span_start := 6; span_text := "32.1" |} ] ->
  length (tokenize provider "32.4 -32.1") = 4
  /\ map shape (tokenize provider "32.4 -32.1") = ["dd.d"; " "; "-"; "dd.d"]
  /\ map offset (tokenize provider "32.4 -32.1") = [0; 4; 5; 6]
  /\ reconstruct (tokenize provider "32.4 -32.1") = "32.4 -32.1".
Proof.
  intros Hspans. unfold tokenize. rewrite Hspans. by vm_compute.
Qed.

End TokenizerFacts.

(** *** The tokenizer on concrete providers *)

Lemma spans_ok_flush txt low pos cur rest :
  pos <= String.length txt ->
  Demo.growing_ok txt low pos cur ->
  Tokenizer.spans_ok txt pos rest = true ->
  Tokenizer.spans_ok txt low (Demo.flush cur ++ rest) = true.
Proof.
  intros Hpos Hcur Hrest. destruct cur as [s |]; cbn in *.
  - destruct Hcur as (Hlow & Hstop & Htext).
    rewrite Hstop, Htext, String.eqb_refl, Hrest.
    rewrite (proj2 (Nat.leb_le _ _) Hlow), (proj2 (Nat.leb_le _ _) Hpos).
    done.
  - destruct rest as [| s rest]; cbn in *.
    + apply Nat.leb_le. lia.
    + rewrite !andb_true_iff in *. destruct Hrest as [[[H1 H2] H3] H4].
      repeat split; try done. apply Nat.leb_le. apply Nat.leb_le in H1. lia.
Qed.

Lemma scan_ok txt cs :
  forall pre low cur,
    txt = String.append pre cs ->
    Demo.growing_ok txt low (String.length pre) cur ->
    Tokenizer.spans_ok txt low (Demo.scan cs (String.length pre) cur) = true.
Proof.
  induction cs as [| c rest IH]; intros pre low cur Htxt Hcur.
  - rewrite append_empty_r in Htxt. subst pre. cbn [Demo.scan].
    rewrite <- (app_nil_r (Demo.flush cur)).
    apply (spans_ok_flush txt low (String.length txt)); [lia | done |].
    cbn. apply Nat.leb_refl.
  - assert (String.length txt = String.length pre + S (String.length rest))
      as Hlen by (by rewrite Htxt, append_length).
    assert (substring (String.length pre) 1 txt = String c EmptyString)
      as Hone by (rewrite Htxt; apply substring_one_after).
    assert (String.length (String.append pre (String c EmptyString))
            = S (String.length pre)) as Hsnoc
      by (rewrite append_length; cbn; lia).
    rewrite append_snoc in Htxt.
    cbn [Demo.scan]. rewrite <- Hsnoc.
    destruct (Demo.is_blank c); [| destruct (Demo.is_word c)].
    + apply (spans_ok_flush txt low (String.length pre)); [lia | done |].
      apply IH; [done |]. cbn. lia.
    + apply IH; [done |]. rewrite Hsnoc.
      destruct cur as [s |]; cbn in *.
      * destruct Hcur as (Hlow & Hstop & Htext).
        rewrite append_length. cbn. split; [done |]. split; [lia |].
        rewrite <- substring_adjacent, Htext, Hstop. by rewrite Hone.
      * split; [done |]. split; [lia | done].
    + apply (spans_ok_flush txt low (String.length pre)); [lia | done |].
      cbn [Tokenizer.spans_ok Tokenizer.span_start Tokenizer.span_text String.length].
      rewrite Hone, String.eqb_refl, Nat.leb_refl.
      rewrite (proj2 (Nat.leb_le _ _)) by lia. cbn [andb].
      replace (String.length pre + 1) with (S (String.length pre)) by lia.
      rewrite <- Hsnoc. apply IH; [done |]. cbn. lia.
Qed.

(** [simple_provider] keeps the provider's contract on every text. *)
Lemma simple_provider_ok txt :
  Tokenizer.spans_ok txt 0 (Demo.simple_provider txt) = true.
Proof.
  apply (scan_ok txt txt EmptyString 0 None); [done |]. cbn. lia.
Qed.

Lemma unit_test_provider_ok txt :
  Tokenizer.spans_ok txt 0 (Demo.unit_test_provider txt) = true.
Proof.
  unfold Demo.unit_test_provider.
  destruct (String.eqb_spec txt TestTokenizer.test_text) as [-> | _].
  - by vm_compute.
  - apply simple_provider_ok.
Qed.

(** With [simple_provider] upstream the round trip holds on every text,
    the empty one and the all-blank ones included. *)
Lemma simple_provider_round_trip txt :
  Tokenizer.reconstruct (Tokenizer.tokenize Demo.simple_provider txt) = txt.
Proof.
  unfold Tokenizer.tokenize.
  rewrite (fill_gaps_spells_rest _ _ _ (simple_provider_ok txt)), Nat.sub_0_r.
  apply substring_whole.
Qed.

Example tokenize_empty_text :
  Tokenizer.tokenize Demo.simple_provider EmptyString = [].
Proof. reflexivity. Qed.

Example tokenize_blank_text :
  TestTokenizer.token_attrs (Tokenizer.tokenize Demo.simple_provider "   ")
  = [("   ", 0, "   ")].
Proof. reflexivity. Qed.

(** *** The unit test's data against the model *)

(** The shapes the test expects are the shapes the model computes. *)
Lemma unit_test_shapes :
  map (fun a : TestTokenizer.attrs => Tokenizer.compute_shape a.1.1)
      TestTokenizer.expected
  = map (fun a : TestTokenizer.attrs => a.2) TestTokenizer.expected.
Proof. by vm_compute. Qed.

(** The test's last assertion, [reconstruct_text(tokens) == text]. *)
Lemma unit_test_round_trip :
  Tokenizer.reconstruct
    (Tokenizer.tokenize Demo.unit_test_provider TestTokenizer.test_text)
  = TestTokenizer.test_text.
Proof. by vm_compute. Qed.

(** The test's first assertion holds of the model's tokens once the four
    single blanks it puts back as tokens (offsets 11, 16, 22 and 38) are
    taken out: the expected list of the test has no entry for them. *)
Lemma unit_test_tokens_but_single_blanks :
  filter (fun a : TestTokenizer.attrs => a.1.1 <> " ")
    (TestTokenizer.token_attrs
       (Tokenizer.tokenize Demo.unit_test_provider TestTokenizer.test_text))
  = TestTokenizer.expected
  /\ length (Tokenizer.tokenize Demo.unit_test_provider TestTokenizer.test_text)
     = 22
  /\ length TestTokenizer.expected = 18.
Proof. by vm_compute. Qed.

Lemma reconstruct_tokenize_witness :
  Tokenizer.spans_ok "   " 0 (Demo.simple_provider "   ") = true
  /\ Tokenizer.reconstruct (Tokenizer.tokenize Demo.simple_provider "   ")
     = "   ".
Proof.
  split; [reflexivity |].
  exact (reconstruct_tokenize Demo.simple_provider "   " eq_refl).
Defined.


(** * More properties of the engine *)

Section EngineMore.

Context {Compiled Doc KG Schema EM : Type}.
Context `{Etk.ETKModule Doc EM}.
Variable jsonpath_ng_parse : string -> option Compiled.
Variable doc_kg : Doc -> KG.
Variable discover : string -> option (list EM).

Abbreviation ETK := (Etk.ETK (Compiled := Compiled) (Schema := Schema) (EM := EM)).
Abbreviation reachable := (Etk.reachable (Schema := Schema) jsonpath_ng_parse discover).

Implicit Types (self : ETK) (jsonpath : string) (doc : Doc) (ems : list EM).

(** *** What [parse_json_path] leaves alone *)

Lemma parse_json_path_frame self jsonpath :
  Etk.parser (Etk.parse_json_path self jsonpath).1.1 = Etk.parser self
  /\ Etk.kg_schema (Etk.parse_json_path self jsonpath).1.1 = Etk.kg_schema self
  /\ Etk.em_lst (Etk.parse_json_path self jsonpath).1.1 = Etk.em_lst self
  /\ Etk.error_policy (Etk.parse_json_path self jsonpath).1.1
     = Etk.error_policy self.
Proof. unfold Etk.parse_json_path. by repeat case_match. Qed.


Lemma load_ems_not_empty modules_path ems :
  Etk.load_ems discover modules_path = Ok ems -> ems <> [].
Proof.
  unfold Etk.load_ems, Etk.topological_sort.
  destruct (discover _) as [[| m l] |]; intros Hload; by simplify_eq.
Qed.

Lemma init_em_lst kg_schema modules policy self :
  Etk.__init__ jsonpath_ng_parse discover kg_schema modules policy = Ok self ->
  match modules with
  | Etk.ModulesNone => Etk.em_lst self = None
  | Etk.ModulesPath path =>
      if String.eqb path "" then Etk.em_lst self = None
      else exists ems, Etk.load_ems discover path = Ok ems
                       /\ Etk.em_lst self = Some ems
  | Etk.ModulesClass ok instance =>
      ok = true /\ Etk.em_lst self = Some [instance]
  end.
Proof.
  unfold Etk.__init__. intros Hinit.
  destruct modules as [| path | [] instance].
  - by simplify_eq.
  - destruct path as [| c path]; [by simplify_eq |].
    cbn [String.eqb].
    destruct (Etk.load_ems discover (String c path)) as [ems |] eqn:Hload;
      [| done].
    exists ems. by simplify_eq.
  - by simplify_eq.
  - done.
Qed.

(** *** The cache as a memo of the parser *)

(** X1: on an engine built by the constructor and used through
    [parse_json_path], a call returns what the parser returns for the
    string, and raises [InvalidJsonPathError] where the parser raises: the
    cache never changes an answer. *)
Theorem parse_json_path_answers_as_parser self jsonpath :
  reachable self ->
  (Etk.parse_json_path self jsonpath).2
  = match jsonpath_ng_parse jsonpath with
    | Some c => Ok c
    | None => Raise (InvalidJsonPathError "Invalid Json Path")
    end.
Proof.
  intros [Hparser Hcache]%reachable_sound. unfold Etk.parse_json_path.
  destruct (Etk.parsed self !! jsonpath) as [c |] eqn:Hc.
  - by rewrite (Hcache _ _ Hc).
  - rewrite Hparser. by destruct (jsonpath_ng_parse jsonpath).
Qed.

(** X2: every further call of [parse_json_path] keeps all the entries the
    cache has: the cache after is an extension of the cache before. *)
Theorem cache_only_grows self self' :
  Etk.later self self' -> Etk.parsed self ⊆ Etk.parsed self'.
Proof.
  intros Hlater. apply map_subseteq_spec. intros p c Hp.
  by eapply later_keeps.
Qed.

Lemma later_trans self1 self2 self3 :
  Etk.later self1 self2 -> Etk.later self2 self3 -> Etk.later self1 self3.
Proof.
  intros H12 H23. induction H23 as [| self3 q _ IH]; [done |].
  by apply Etk.later_parse.
Qed.

Lemma parse_all_cons self jsonpath rest :
  EtkUse.parse_all self (jsonpath :: rest)
  = ((EtkUse.parse_all (Etk.parse_json_path self jsonpath).1.1 rest).1,
     ((Etk.parse_json_path self jsonpath).1.2
      ++ (EtkUse.parse_all (Etk.parse_json_path self jsonpath).1.1 rest).2)%list).
Proof.
  cbn [EtkUse.parse_all].
  destruct (Etk.parse_json_path self jsonpath) as [[self' handed] r].
  cbn [fst snd]. by destruct (EtkUse.parse_all self' rest).
Qed.

Lemma parse_all_later self paths :
  Etk.later self (EtkUse.parse_all self paths).1.
Proof.
  revert self. induction paths as [| q rest IH]; intros self.
  - apply Etk.later_now.
  - rewrite parse_all_cons. cbn [fst].
    eapply later_trans; [| apply IH].
    apply Etk.later_parse, Etk.later_now.
Qed.

(** What one call hands to the parser: nothing, or the string itself. *)
Lemma parse_json_path_handed self jsonpath :
  (Etk.parsed self !! jsonpath = None
   /\ (Etk.parse_json_path self jsonpath).1.2 = [jsonpath])
  \/ (is_Some (Etk.parsed self !! jsonpath)
      /\ (Etk.parse_json_path self jsonpath).1.2 = []).
Proof.
  unfold Etk.parse_json_path.
  destruct (Etk.parsed self !! jsonpath) eqn:Hc.
  - right. by split.
  - left. by destruct (Etk.parser self jsonpath).
Qed.

Lemma parse_json_path_other self jsonpath p :
  p <> jsonpath ->
  Etk.parsed (Etk.parse_json_path self jsonpath).1.1 !! p
  = Etk.parsed self !! p.
Proof.
  intros Hne. unfold Etk.parse_json_path.
  destruct (Etk.parsed self !! jsonpath); [done |].
  destruct (Etk.parser self jsonpath); [| done].
  cbn. by apply lookup_insert_ne.
Qed.

Lemma parse_json_path_accepted self jsonpath c :
  Etk.parser self jsonpath = Some c ->
  is_Some (Etk.parsed (Etk.parse_json_path self jsonpath).1.1 !! jsonpath).
Proof.
  intros Hc. unfold Etk.parse_json_path.
  destruct (Etk.parsed self !! jsonpath) eqn:Hp.
  - cbn. by rewrite Hp.
  - rewrite Hc. cbn. by rewrite lookup_insert_eq.
Qed.

Lemma parse_all_cached_not_handed self paths p :
  is_Some (Etk.parsed self !! p) -> p ∉ (EtkUse.parse_all self paths).2.
Proof.
  revert self. induction paths as [| q rest IH]; intros self [c Hp].
  - cbn. apply not_elem_of_nil.
  - rewrite parse_all_cons. cbn [snd]. rewrite elem_of_app.
    intros [Hin | Hin].
    + destruct (parse_json_path_handed self q) as [[Hq Hh] | [_ Hh]];
        rewrite Hh in Hin.
      * apply list_elem_of_singleton in Hin. congruence.
      * by apply elem_of_nil in Hin.
    + revert Hin. apply IH. exists c. by apply parse_json_path_keeps.
Qed.

Lemma filter_absent (l : list string) p :
  p ∉ l -> filter (fun q => q = p) l = [].
Proof.
  induction l as [| q l IH]; [done |].
  rewrite not_elem_of_cons. intros [Hne Hl].
  rewrite filter_cons_False by congruence. by apply IH.
Qed.

(** X3: whatever strings a caller compiles, in whatever order and however
    often, a string the parser accepts is handed to the parser at most
    once. *)
Theorem parse_all_parses_once self paths p c :
  Etk.parser self p = Some c ->
  length (filter (fun q => q = p) (EtkUse.parse_all self paths).2) <= 1.
Proof.
  revert self. induction paths as [| q rest IH]; intros self Hc.
  - cbn. lia.
  - rewrite parse_all_cons. cbn [snd]. rewrite filter_app, length_app.
    destruct (decide (q = p)) as [-> | Hne].
    + pose proof (parse_all_cached_not_handed
                    (Etk.parse_json_path self p).1.1 rest p
                    (parse_json_path_accepted _ _ _ Hc)) as Hnot.
      rewrite (filter_absent _ _ Hnot).
      destruct (parse_json_path_handed self p) as [[_ ->] | [_ ->]].
      * rewrite filter_cons_True by done. cbn. lia.
      * cbn. lia.
    + assert (filter (fun q0 => q0 = p) (Etk.parse_json_path self q).1.2 = [])
        as ->.
      { destruct (parse_json_path_handed self q) as [[_ ->] | [_ ->]];
          [| done].
        by rewrite filter_cons_False. }
      cbn. apply IH.
      destruct (parse_json_path_frame self q) as (-> & _). done.
Qed.

(** X4: after a caller has compiled [paths], the keys of the cache are the
    keys it had before together with the strings of [paths] the parser
    accepts: every accepted string is cached, no rejected one is. *)
Theorem parse_all_cache_keys self paths :
  dom (Etk.parsed (EtkUse.parse_all self paths).1)
  = dom (Etk.parsed self)
    ∪ list_to_set (filter (fun q => is_Some (Etk.parser self q)) paths).
Proof.
  revert self. induction paths as [| q rest IH]; intros self.
  - cbn. set_solver.
  - rewrite parse_all_cons. cbn [fst]. rewrite IH. clear IH.
    destruct (parse_json_path_frame self q) as (-> & _).
    rewrite filter_cons.
    unfold Etk.parse_json_path.
    destruct (Etk.parsed self !! q) as [c0 |] eqn:Hq.
    + cbn [fst]. assert (q ∈ dom (Etk.parsed self))
        by (apply elem_of_dom; by rewrite Hq).
      case_decide; set_solver.
    + destruct (Etk.parser self q) as [c |] eqn:Hc; cbn [fst Etk.parsed Etk.set_parsed].
      * rewrite dom_insert_L. case_decide as Hs; [set_solver |].
        exfalso. apply Hs. by eexists.
      * case_decide as Hs; [| set_solver]. by destruct Hs.
Qed.

(** X5: on an engine built by the constructor and used through
    [parse_json_path], a string the parser rejects is handed to the parser
    again on every call made with it: failures are not remembered. *)
Theorem parse_all_reparses_rejected self paths p :
  reachable self ->
  jsonpath_ng_parse p = None ->
  length (filter (fun q => q = p) (EtkUse.parse_all self paths).2)
  = length (filter (fun q => q = p) paths).
Proof.
  intros Hreach Hbad. revert self Hreach.
  induction paths as [| q rest IH]; intros self Hreach; [done |].
  rewrite parse_all_cons. cbn [snd]. rewrite filter_app, length_app.
  rewrite (IH _ (Etk.reachable_parse _ _ _ q Hreach)).
  rewrite (filter_cons _ q rest).
  destruct (reachable_sound _ _ _ Hreach) as [Hparser Hcache].
  destruct (decide (q = p)) as [-> | Hne].
  - destruct (parse_json_path_handed self p) as [[_ ->] | [[c Hc] _]].
    + by rewrite !filter_cons_True.
    + apply Hcache in Hc. congruence.
  - assert (filter (fun q0 => q0 = p) (Etk.parse_json_path self q).1.2 = [])
      as ->; [| done].
    destruct (parse_json_path_handed self q) as [[_ ->] | [_ ->]]; [| done].
    by rewrite filter_cons_False.
Qed.

(** *** The engine between calls *)



(** X8: on an engine built by the constructor and used through
    [parse_json_path], a module list that is there is never empty. *)
Theorem reachable_em_lst_not_empty self ems :
  reachable self -> Etk.em_lst self = Some ems -> ems <> [].
Proof.
  intros Hreach. revert ems.
  induction Hreach as [kg_schema modules policy self Hinit | self q _ IH];
    intros ems Hems.
  - apply init_em_lst in Hinit. destruct modules as [| path | ok instance].
    + congruence.
    + destruct (String.eqb path ""); [congruence |].
      destruct Hinit as (ems' & Hload & Hems').
      apply load_ems_not_empty in Hload. congruence.
    + destruct Hinit as [_ Hems']. by simplify_eq.
  - apply IH. by destruct (parse_json_path_frame self q) as (_ & _ & <- & _).
Qed.

(** X9: on an engine built by the constructor and used through
    [parse_json_path], the error policy is [RAISE] or [PROCESS], whatever
    selector string the constructor was given: no engine has
    [THROW_EXTRACTION] or [THROW_DOCUMENT]. *)
Theorem reachable_error_policy self :
  reachable self ->
  Etk.error_policy self = Some Etk.RAISE
  \/ Etk.error_policy self = Some Etk.PROCESS.
Proof.
  induction 1 as [kg_schema modules policy self Hinit | self q _ IH].
  - apply init_fields in Hinit as (_ & _ & _ & ->).
    rewrite select_error_policy_raise_or_process.
    destruct (String.eqb _ _); [by left | by right].
  - by destruct (parse_json_path_frame self q) as (_ & _ & _ & ->).
Qed.

(** *** The module loop, piece by piece *)

Lemma run_ems_cons_eq a_em rest doc :
  Etk.run_ems (a_em :: rest) doc
  = if Etk.document_selector a_em doc then
      match Etk.process_document a_em doc with
      | Ok doc' =>
          (Etk.CallSelector a_em doc true :: Etk.CallProcess a_em doc
           :: (Etk.run_ems rest doc').1, (Etk.run_ems rest doc').2)
      | Raise e =>
          ([Etk.CallSelector a_em doc true; Etk.CallProcess a_em doc], Raise e)
      end
    else (Etk.CallSelector a_em doc false :: (Etk.run_ems rest doc).1,
          (Etk.run_ems rest doc).2).
Proof.
  cbn [Etk.run_ems]. destruct (Etk.document_selector a_em doc).
  - destruct (Etk.process_document a_em doc) as [doc' |]; [| done].
    by destruct (Etk.run_ems rest doc').
  - by destruct (Etk.run_ems rest doc).
Qed.

(** X10: running a list of modules that is one list followed by another is
    running the first list and then, when that ends without an exception,
    the second list on the document the first left; when a module of the
    first list raises, nothing of the second list is called. *)
Theorem run_ems_app ems1 ems2 doc :
  Etk.run_ems (ems1 ++ ems2)%list doc
  = match (Etk.run_ems ems1 doc).2 with
    | Ok doc1 =>
        (((Etk.run_ems ems1 doc).1 ++ (Etk.run_ems ems2 doc1).1)%list,
         (Etk.run_ems ems2 doc1).2)
    | Raise e => ((Etk.run_ems ems1 doc).1, Raise e)
    end.
Proof.
  revert doc. induction ems1 as [| a_em rest IH]; intros doc.
  - cbn. by destruct (Etk.run_ems ems2 doc).
  - cbn [app]. rewrite !run_ems_cons_eq.
    destruct (Etk.document_selector a_em doc).
    + destruct (Etk.process_document a_em doc) as [doc' | e]; [| done].
      rewrite IH. cbn [fst snd].
      by destruct (Etk.run_ems rest doc').2.
    + rewrite IH. cbn [fst snd]. by destruct (Etk.run_ems rest doc).2.
Qed.

Lemma run_ems_none_selected ems doc :
  (forall m, m ∈ ems -> Etk.document_selector m doc = false) ->
  Etk.run_ems ems doc
  = (map (fun m => Etk.CallSelector m doc false) ems, Ok doc).
Proof.
  induction ems as [| a_em rest IH]; intros Hsel; [done |].
  rewrite run_ems_cons_eq, (Hsel a_em) by by left.
  rewrite IH; [done |]. intros m Hm. apply Hsel. by right.
Qed.

(** X11: when a selected module raises, [process_ems] raises that
    exception, whatever the engine's error policy is, and the modules
    after it in the list get no call at all, not even of
    [document_selector]. *)
Theorem process_ems_stops_at_exception self before a_em after doc calls doc1 e :
  Etk.em_lst self = Some (before ++ a_em :: after)%list ->
  Etk.run_ems before doc = (calls, Ok doc1) ->
  Etk.document_selector a_em doc1 = true ->
  Etk.process_document a_em doc1 = Raise e ->
  Etk.process_ems doc_kg self doc
  = ((calls ++ [Etk.CallSelector a_em doc1 true; Etk.CallProcess a_em doc1])%list,
     Raise e).
Proof.
  intros Hems Hbefore Hsel Hraise. unfold Etk.process_ems. rewrite Hems.
  rewrite run_ems_app, Hbefore. cbn [fst snd].
  by rewrite run_ems_cons_eq, Hsel, Hraise.
Qed.

(** X12: when no module of the list selects the document, [process_ems]
    calls every selector once, in list order, calls no
    [process_document], and returns the document as it was given with its
    [kg]. *)
Theorem process_ems_none_selected self ems doc :
  Etk.em_lst self = Some ems ->
  (forall m, m ∈ ems -> Etk.document_selector m doc = false) ->
  Etk.process_ems doc_kg self doc
  = (map (fun m => Etk.CallSelector m doc false) ems, Ok (doc, doc_kg doc)).
Proof.
  intros Hems Hsel. unfold Etk.process_ems.
  by rewrite Hems, run_ems_none_selected.
Qed.

End EngineMore.

(** * Properties of the file-reading methods *)

Section SplitLines.

Import PyText.

Implicit Types (s cur e : list N) (c : N).

Lemma one_line_app s1 s2 :
  one_line (s1 ++ s2)%list = one_line s1 && one_line s2.
Proof. apply forallb_app. Qed.

Lemma splitlines_from_after_LF rest cur :
  splitlines_from (LF :: rest) cur = cur :: splitlines_from rest [].
Proof. by destruct rest. Qed.

(** One entry and its line feed, in front of more text. *)
Lemma splitlines_from_entry e rest cur :
  one_line e = true ->
  splitlines_from (e ++ LF :: rest)%list cur
  = (cur ++ e)%list :: splitlines_from rest [].
Proof.
  revert cur. induction e as [| c e IH]; intros cur He.
  - rewrite app_nil_r. apply splitlines_from_after_LF.
  - cbn in He. apply andb_true_iff in He as [Hc He].
    apply negb_true_iff in Hc.
    cbn [app splitlines_from]. rewrite Hc.
    rewrite (IH _ He). by rewrite <- app_assoc.
Qed.

Lemma splitlines_lines_text entries :
  Forall (fun e => one_line e = true) entries ->
  splitlines (lines_text entries) = entries.
Proof.
  unfold splitlines. induction 1 as [| e entries He _ IH]; [done |].
  cbn [lines_text]. rewrite (splitlines_from_entry _ _ _ He). by rewrite IH.
Qed.

Lemma splitlines_from_one_line n :
  forall s cur,
    length s <= n ->
    one_line cur = true ->
    Forall (fun e => one_line e = true) (splitlines_from s cur).
Proof.
  induction n as [| n IH]; intros s cur Hlen Hcur.
  - destruct s; [| cbn in Hlen; lia].
    cbn. destruct cur; [done |]. by apply Forall_singleton.
  - destruct s as [| c rest].
    { cbn. destruct cur; [done |]. by apply Forall_singleton. }
    cbn in Hlen. cbn [splitlines_from].
    destruct (is_linebreak c) eqn:Hc.
    + apply Forall_cons. split; [done |].
      destruct rest as [| c' rest']; [done |]. cbn in Hlen.
      destruct ((c =? CR) && (c' =? LF))%N;
        apply IH; cbn; try done; lia.
    + apply IH; [lia |].
      rewrite one_line_app, Hcur. cbn. by rewrite Hc.
Qed.

Lemma ends_in_linebreak_cons c c' rest :
  ends_in_linebreak (c :: c' :: rest) = ends_in_linebreak (c' :: rest).
Proof. reflexivity. Qed.

Lemma splitlines_from_final_LF n :
  forall s cur,
    length s <= n ->
    ends_in_linebreak s = false ->
    s <> [] \/ cur <> [] ->
    splitlines_from (s ++ [LF])%list cur = splitlines_from s cur.
Proof.
  assert (forall cur c, (cur ++ [c])%list <> []) as Hsnoc
    by (by intros [| ? ?] ?).
  assert (forall cur, cur <> [] ->
            splitlines_from [LF] cur = splitlines_from [] cur) as Hbase.
  { intros cur Hcur. cbn. by destruct cur. }
  induction n as [| n IH]; intros s cur Hlen Hend Hne.
  - destruct s; [| cbn in Hlen; lia].
    apply Hbase. by destruct Hne.
  - destruct s as [| c rest]; [apply Hbase; by destruct Hne |].
    cbn in Hlen. cbn [app splitlines_from].
    destruct (is_linebreak c) eqn:Hc.
    + destruct rest as [| c' rest'].
      { unfold ends_in_linebreak in Hend. cbn in Hend. congruence. }
      rewrite ends_in_linebreak_cons in Hend. cbn in Hlen.
      cbn [app]. f_equal.
      destruct ((c =? CR) && (c' =? LF))%N eqn:Hcrlf.
      * apply andb_true_iff in Hcrlf as [_ Hlf%N.eqb_eq]. subst c'.
        destruct rest' as [| c'' rest'']; [by cbn in Hend |].
        apply IH; [cbn in *; lia | done | by left].
      * apply (IH (c' :: rest') []); [cbn; lia | done | by left].
    + apply IH; [lia | | right; apply Hsnoc].
      destruct rest as [| c' rest']; [done |].
      by rewrite ends_in_linebreak_cons in Hend.
Qed.

End SplitLines.

Section GlossaryFacts.

Context {J : Type}.
Variable read_text : string -> option (list N).
Variable json_load : list N -> option J.

(** X14: a glossary file written one entry per line, every entry (empty
    ones too) followed by a line feed and holding no line boundary of
    [str.splitlines] (U+2028 and U+2029 included), loads as exactly those
    entries, in order: a blank line gives an empty entry. *)
Theorem load_glossary_entries file_path entries :
  read_text file_path = Some (PyText.lines_text entries) ->
  Forall (fun e => PyText.one_line e = true) entries ->
  EtkFiles.load_glossary read_text json_load file_path false
  = inr (EtkFiles.GlossaryLines entries).
Proof.
  intros Hread Hentries. unfold EtkFiles.load_glossary.
  by rewrite Hread, splitlines_lines_text.
Qed.

(** X15: no entry of a glossary loaded as text holds a line boundary of
    [str.splitlines], whatever code points the file holds. *)
Theorem load_glossary_entries_one_line file_path entries :
  EtkFiles.load_glossary read_text json_load file_path false
  = inr (EtkFiles.GlossaryLines entries) ->
  Forall (fun e => PyText.one_line e = true) entries.
Proof.
  unfold EtkFiles.load_glossary.
  destruct (read_text file_path) as [content |]; [| done].
  intros [= <-]. by eapply splitlines_from_one_line.
Qed.

(** X16: a line feed at the very end of a glossary file makes no
    difference: a non-empty text that does not end in a line boundary
    (any of the ten) loads to the same entries with and without it. *)
Theorem load_glossary_final_newline path1 path2 content :
  read_text path1 = Some content ->
  read_text path2 = Some (content ++ [PyText.LF])%list ->
  content <> [] ->
  PyText.ends_in_linebreak content = false ->
  EtkFiles.load_glossary read_text json_load path2 false
  = EtkFiles.load_glossary read_text json_load path1 false.
Proof.
  intros H1 H2 Hne Hend. unfold EtkFiles.load_glossary.
  rewrite H1, H2. do 2 f_equal. unfold PyText.splitlines.
  eapply splitlines_from_final_LF; [done | done | by left].
Qed.

End GlossaryFacts.

(** * Properties of module discovery *)

Section DiscoveryFacts.

Context {EM : Type}.
Variable listdir : string -> option (list string).
Variable import_module : string -> option (EtkFiles.PyModule (EM := EM)).

Abbreviation import_ems := (EtkFiles.import_ems import_module).
Abbreviation load_ems := (EtkFiles.load_ems listdir import_module).

Implicit Types (files : list string) (ems : list EM)
  (classes : list (EtkFiles.PyClass (EM := EM))).

Lemma classes_in_module_elem cls (module : EtkFiles.PyModule (EM := EM)) :
  cls ∈ EtkFiles.classes_in_module module ->
  exists key,
    (key, EtkFiles.PyType cls) ∈ EtkFiles.mod_dict module
    /\ EtkFiles.cls_is_etk_module cls = true
    /\ EtkFiles.cls_module cls = EtkFiles.mod_name module.
Proof.
  unfold EtkFiles.classes_in_module.
  intros ([key v] & Hitem & Hsome)%list_elem_of_omap. cbn in Hsome.
  destruct v as [cls' |]; [| done].
  destruct (EtkFiles.cls_is_etk_module cls') eqn:Hsub; [| done].
  destruct (String.eqb_spec (EtkFiles.cls_module cls')
              (EtkFiles.mod_name module)) as [Hmod | _]; [| done].
  cbn in Hsome. simplify_eq. by exists key.
Qed.

Lemma instantiate_elem classes ems em :
  EtkFiles.instantiate classes = Some ems ->
  em ∈ ems ->
  exists cls, cls ∈ classes /\ EtkFiles.cls_new cls = Some em.
Proof.
  revert ems. induction classes as [| cls rest IH]; intros ems Hinst Hem.
  - cbn in Hinst. simplify_eq. by apply elem_of_nil in Hem.
  - cbn in Hinst.
    destruct (EtkFiles.cls_new cls) as [em0 |] eqn:Hnew; [| done].
    destruct (EtkFiles.instantiate rest) as [ems0 |]; [| done].
    simplify_eq. apply elem_of_cons in Hem as [-> | Hem].
    + exists cls. split; [by left | done].
    + destruct (IH _ eq_refl Hem) as (cls' & Hin & Hnew').
      exists cls'. split; [by right | done].
Qed.

Lemma instantiate_fails classes cls :
  cls ∈ classes -> EtkFiles.cls_new cls = None ->
  EtkFiles.instantiate classes = None.
Proof.
  induction classes as [| cls' rest IH]; intros Hin Hnew.
  - by apply elem_of_nil in Hin.
  - cbn. apply elem_of_cons in Hin as [<- | Hin]; [by rewrite Hnew |].
    rewrite (IH Hin Hnew). by destruct (EtkFiles.cls_new cls').
Qed.

Lemma import_ems_elem modules_path files ems em :
  import_ems modules_path files = Some ems ->
  em ∈ ems ->
  exists file_name this_module cls,
    file_name ∈ files
    /\ EtkFiles.is_em_file file_name = true
    /\ import_module (EtkFiles.module_name modules_path file_name)
       = Some this_module
    /\ cls ∈ EtkFiles.classes_in_module this_module
    /\ EtkFiles.cls_new cls = Some em.
Proof.
  revert ems. induction files as [| f rest IH]; intros ems Himp Hem.
  - cbn in Himp. simplify_eq. by apply elem_of_nil in Hem.
  - cbn in Himp. destruct (EtkFiles.is_em_file f) eqn:Hf.
    + destruct (import_module _) as [m |] eqn:Hm; [| done].
      destruct (EtkFiles.instantiate _) as [ems0 |] eqn:Hinst; [| done].
      destruct (import_ems modules_path rest) as [more |]; [| done].
      simplify_eq. apply elem_of_app in Hem as [Hem | Hem].
      * destruct (instantiate_elem _ _ _ Hinst Hem) as (cls & Hcls & Hnew).
        exists f, m, cls. repeat split; try done. by left.
      * destruct (IH _ eq_refl Hem) as (f' & m' & cls & Hf' & ?).
        exists f', m', cls. split; [by right | done].
    + destruct (IH _ Himp Hem) as (f' & m' & cls & Hf' & ?).
      exists f', m', cls. split; [by right | done].
Qed.

Lemma import_ems_fails modules_path files file_name :
  file_name ∈ files ->
  EtkFiles.is_em_file file_name = true ->
  import_module (EtkFiles.module_name modules_path file_name) = None
  \/ (exists this_module cls,
        import_module (EtkFiles.module_name modules_path file_name)
        = Some this_module
        /\ cls ∈ EtkFiles.classes_in_module this_module
        /\ EtkFiles.cls_new cls = None) ->
  import_ems modules_path files = None.
Proof.
  induction files as [| f rest IH]; intros Hin Hf Hbad.
  - by apply elem_of_nil in Hin.
  - cbn. apply elem_of_cons in Hin as [<- | Hin].
    + rewrite Hf. destruct Hbad as [-> | (m & cls & -> & Hcls & Hnew)];
        [done |].
      by rewrite (instantiate_fails _ _ Hcls Hnew).
    + rewrite (IH Hin Hf Hbad). repeat case_match; done.
Qed.

Lemma import_ems_nothing modules_path files :
  (forall file_name,
      file_name ∈ files -> EtkFiles.is_em_file file_name = true ->
      exists this_module,
        import_module (EtkFiles.module_name modules_path file_name)
        = Some this_module
        /\ EtkFiles.classes_in_module this_module = []) ->
  import_ems modules_path files = Some [].
Proof.
  induction files as [| f rest IH]; intros Hall; [done |].
  cbn. rewrite IH by (intros f' Hf'; apply Hall; by right).
  destruct (EtkFiles.is_em_file f) eqn:Hf; [| done].
  destruct (Hall f) as (m & -> & ->); [by left | done | done].
Qed.

(** X17: every module instance [load_ems] returns was made by calling a
    class that is an [ETKModule] subclass, that sits in the [__dict__] of
    the module imported for a file [em_*.py] of the directory, and that was
    defined in that module ([__module__] is the module's name): a class the
    file merely imports is never instantiated. *)
Theorem load_ems_instances_from_em_files modules_path ems em :
  load_ems modules_path = Ok ems ->
  em ∈ ems ->
  exists files file_name this_module key cls,
    listdir (PyStr.strip "/" (PyStr.strip "." modules_path)) = Some files
    /\ file_name ∈ files
    /\ EtkFiles.is_em_file file_name = true
    /\ import_module
         (EtkFiles.module_name
            (PyStr.strip "/" (PyStr.strip "." modules_path)) file_name)
       = Some this_module
    /\ (key, EtkFiles.PyType cls) ∈ EtkFiles.mod_dict this_module
    /\ EtkFiles.cls_is_etk_module cls = true
    /\ EtkFiles.cls_module cls = EtkFiles.mod_name this_module
    /\ EtkFiles.cls_new cls = Some em.
Proof.
  unfold EtkFiles.load_ems, Etk.load_ems, EtkFiles.discover,
    Etk.topological_sort.
  destruct (listdir _) as [files |] eqn:Hfiles; [| done].
  destruct (import_ems _ files) as [[| m l] |] eqn:Himp; try done.
  intros [= <-] Hem.
  destruct (import_ems_elem _ _ _ _ Himp Hem)
    as (f & this_module & cls & Hf & Hem_file & Hmod & Hcls & Hnew).
  destruct (classes_in_module_elem _ _ Hcls) as (key & Hkey & Hsub & Hdef).
  by exists files, f, this_module, key, cls.
Qed.

(** X18: the files of the directory that are not named [em_*.py] play no
    part: the loop gives the same result on the listing and on the listing
    with those files left out (they are not imported, so a file that
    cannot be imported does no harm unless it is named [em_*.py]). *)
Theorem import_ems_skips_other_files modules_path files :
  import_ems modules_path files
  = import_ems modules_path
      (filter (fun f => EtkFiles.is_em_file f = true) files).
Proof.
  induction files as [| f rest IH]; [done |].
  rewrite filter_cons. cbn [EtkFiles.import_ems].
  destruct (EtkFiles.is_em_file f) eqn:Hf.
  - rewrite decide_True by done. cbn [EtkFiles.import_ems].
    by rewrite Hf, IH.
  - by rewrite decide_False by done.
Qed.

(** X19: the instances of an earlier file of the listing come before
    those of a later one: the loop on one listing followed by another is
    the loop on each, results joined in that order, and fails when either
    fails. *)
Theorem import_ems_app modules_path files1 files2 :
  import_ems modules_path (files1 ++ files2)%list
  = match import_ems modules_path files1, import_ems modules_path files2 with
    | Some ems1, Some ems2 => Some (ems1 ++ ems2)%list
    | _, _ => None
    end.
Proof.
  induction files1 as [| f rest IH].
  - cbn. by destruct (import_ems modules_path files2).
  - cbn [app EtkFiles.import_ems]. rewrite IH.
    destruct (EtkFiles.is_em_file f); [| done].
    destruct (import_module _) as [m |]; [| done].
    destruct (EtkFiles.instantiate _) as [ems0 |]; [| done].
    destruct (import_ems modules_path rest) as [ems1 |]; [| done].
    destruct (import_ems modules_path files2) as [ems2 |]; [| done].
    by rewrite app_assoc.
Qed.

(** X20: when the directory cannot be listed, or a file [em_*.py] of it
    cannot be imported, or the constructor of one of the classes found
    raises, [load_ems] raises [NotGetETKModuleError] with the message
    about a wrong file path. *)
Theorem load_ems_wrong_file_path modules_path :
  listdir (PyStr.strip "/" (PyStr.strip "." modules_path)) = None
  \/ (exists files file_name,
        listdir (PyStr.strip "/" (PyStr.strip "." modules_path)) = Some files
        /\ file_name ∈ files
        /\ EtkFiles.is_em_file file_name = true
        /\ (import_module
              (EtkFiles.module_name
                 (PyStr.strip "/" (PyStr.strip "." modules_path)) file_name)
            = None
            \/ exists this_module cls,
                import_module
                  (EtkFiles.module_name
                     (PyStr.strip "/" (PyStr.strip "." modules_path))
                     file_name)
                = Some this_module
                /\ cls ∈ EtkFiles.classes_in_module this_module
                /\ EtkFiles.cls_new cls = None)) ->
  load_ems modules_path
  = Raise (NotGetETKModuleError "Wrong file path for ETK modules").
Proof.
  unfold EtkFiles.load_ems, Etk.load_ems, EtkFiles.discover.
  intros [-> | (files & f & -> & Hf & Hem_file & Hbad)]; [done |].
  by rewrite (import_ems_fails _ _ _ Hf Hem_file Hbad).
Qed.

(** X21: when the directory can be listed and every file [em_*.py] of it
    (there may be none) imports but defines no [ETKModule] subclass,
    [load_ems] raises [NotGetETKModuleError] with the message that no
    module was found. *)
Theorem load_ems_no_module modules_path files :
  listdir (PyStr.strip "/" (PyStr.strip "." modules_path)) = Some files ->
  (forall file_name,
      file_name ∈ files -> EtkFiles.is_em_file file_name = true ->
      exists this_module,
        import_module
          (EtkFiles.module_name
             (PyStr.strip "/" (PyStr.strip "." modules_path)) file_name)
        = Some this_module
        /\ EtkFiles.classes_in_module this_module = []) ->
  load_ems modules_path
  = Raise (NotGetETKModuleError
             "No ETK module in dir, module file should start with em_, end with .py").
Proof.
  intros Hfiles Hnone.
  unfold EtkFiles.load_ems, Etk.load_ems, EtkFiles.discover.
  by rewrite Hfiles, (import_ems_nothing _ _ Hnone).
Qed.

End DiscoveryFacts.

(** * Properties of the names [load_ems] builds *)

Section PathFacts.

Implicit Types (s t p : string) (ch c : ascii).

Lemma list_ascii_of_string_app s t :
  list_ascii_of_string (String.append s t)
  = (list_ascii_of_string s ++ list_ascii_of_string t)%list.
Proof.
  induction s as [| c s IH]; [done |]. rewrite append_cons. cbn. by rewrite IH.
Qed.

Lemma string_of_list_ascii_app (l1 l2 : list ascii) :
  string_of_list_ascii (l1 ++ l2)
  = String.append (string_of_list_ascii l1) (string_of_list_ascii l2).
Proof.
  induction l1 as [| c l1 IH]; [done |]. cbn. by rewrite IH, append_cons.
Qed.

Lemma reverse_reverse s : PyStr.reverse (PyStr.reverse s) = s.
Proof.
  unfold PyStr.reverse.
  by rewrite list_ascii_of_string_of_list_ascii, rev_involutive,
    string_of_list_ascii_of_string.
Qed.

Lemma reverse_app s t :
  PyStr.reverse (String.append s t)
  = String.append (PyStr.reverse t) (PyStr.reverse s).
Proof.
  unfold PyStr.reverse.
  by rewrite list_ascii_of_string_app, rev_app_distr, string_of_list_ascii_app.
Qed.

Lemma lstrip_no_head ch s :
  PyText.starts_with_char ch (PyStr.lstrip ch s) = false.
Proof.
  induction s as [| c s IH]; [done |]. cbn.
  destruct (Ascii.eqb c ch) eqn:Hc; [done |]. cbn. by rewrite Hc.
Qed.

Lemma lstrip_suffix ch s :
  exists pad, s = String.append pad (PyStr.lstrip ch s).
Proof.
  induction s as [| c s [pad IH]]; [by exists EmptyString |]. cbn.
  destruct (Ascii.eqb c ch).
  - exists (String c pad). by rewrite append_cons, <- IH.
  - by exists EmptyString.
Qed.

Lemma rstrip_no_tail ch s :
  PyText.ends_with_char ch (PyStr.rstrip ch s) = false.
Proof.
  unfold PyText.ends_with_char, PyStr.rstrip.
  rewrite reverse_reverse. apply lstrip_no_head.
Qed.

Lemma rstrip_keeps_head ch s :
  PyText.starts_with_char ch s = false ->
  PyText.starts_with_char ch (PyStr.rstrip ch s) = false.
Proof.
  intros Hs. unfold PyStr.rstrip.
  destruct (lstrip_suffix ch (PyStr.reverse s)) as [pad Hpad].
  apply (f_equal PyStr.reverse) in Hpad.
  rewrite reverse_reverse, reverse_app in Hpad.
  destruct (PyStr.reverse (PyStr.lstrip ch (PyStr.reverse s))) as [| c x];
    [done |].
  rewrite append_cons in Hpad. by subst s.
Qed.

Lemma strip_trimmed ch s :
  PyText.starts_with_char ch (PyStr.strip ch s) = false
  /\ PyText.ends_with_char ch (PyStr.strip ch s) = false.
Proof.
  unfold PyStr.strip. split.
  - apply rstrip_keeps_head, lstrip_no_head.
  - apply rstrip_no_tail.
Qed.

(** X22: [load_ems] looks only at directory names that neither start nor
    end with a slash: two ways of listing and loading a directory that
    agree on those names give the same result for every path. *)
Theorem load_ems_asks_trimmed_names {EM : Type}
    (discover1 discover2 : string -> option (list EM)) modules_path :
  (forall d,
      PyText.starts_with_char "/" d = false ->
      PyText.ends_with_char "/" d = false ->
      discover1 d = discover2 d) ->
  Etk.load_ems discover1 modules_path = Etk.load_ems discover2 modules_path.
Proof.
  intros Hsame. unfold Etk.load_ems.
  destruct (strip_trimmed "/" (PyStr.strip "." modules_path)) as [Hhead Htail].
  by rewrite (Hsame _ Hhead Htail).
Qed.

Lemma lstrip_dots n s :
  PyStr.lstrip "." (String.append (PyText.dots n) (String "/" s))
  = String "/" s.
Proof.
  induction n as [| n IH]; [done |].
  cbn [PyText.dots]. rewrite append_cons. cbn [PyStr.lstrip].
  by rewrite IH.
Qed.

(** X23: dots in front of the first slash of a path are lost: a path that
    is any number of dots, a slash and more is loaded as the path from the
    slash on, so [./ems], [../ems] and [/ems] all mean the same
    directory. *)
Theorem load_ems_leading_dots {EM : Type}
    (discover : string -> option (list EM)) n p :
  Etk.load_ems discover (String.append (PyText.dots n) (String "/" p))
  = Etk.load_ems discover (String "/" p).
Proof.
  unfold Etk.load_ems, PyStr.strip.
  rewrite lstrip_dots.
  change (PyStr.lstrip "." (String "/" p)) with (String "/" p).
  done.
Qed.

Lemma prefix_em file_name :
  PyText.startswith "em_" file_name = true ->
  exists rest, file_name = String.append "em_" rest.
Proof.
  unfold PyText.startswith. intros Hpre%prefix_correct.
  destruct file_name as [| c1 [| c2 [| c3 rest]]]; cbn in Hpre; try done.
  injection Hpre as -> -> -> _. by exists rest.
Qed.

(** X24: a file name that passes the test of [load_ems] is [em_], a stem,
    and [.py]; the module imported for it is named by the directory, a
    dot, and [em_] with the stem. *)
Theorem em_file_module_name modules_path file_name :
  EtkFiles.is_em_file file_name = true ->
  exists stem,
    file_name = String.append "em_" (String.append stem ".py")
    /\ EtkFiles.module_name modules_path file_name
       = String.append modules_path
           (String.append "." (String.append "em_" stem)).
Proof.
  unfold EtkFiles.is_em_file. intros [Hpre Hsuf]%andb_true_iff.
  destruct (prefix_em _ Hpre) as [rest ->].
  unfold PyText.endswith in Hsuf.
  apply andb_true_iff in Hsuf as [_ Hsuf%String.eqb_eq].
  assert (3 <= String.length rest) as Hlen.
  { destruct rest as [| a [| b [| c rest]]]; cbn in Hsuf; try done.
    cbn. lia. }
  exists (substring 0 (String.length rest - 3) rest).
  assert (substring (String.length rest - 3) 3 rest = ".py") as Htail.
  { rewrite <- Hsuf. rewrite append_length. cbn [String.length].
    replace (3 + String.length rest - 3)
      with (S (S (S (String.length rest - 3)))) by lia.
    reflexivity. }
  assert (rest = String.append (substring 0 (String.length rest - 3) rest) ".py")
    as Hrest.
  { pose proof (substring_adjacent rest 0 (String.length rest - 3) 3) as Hadj.
    cbn [Nat.add] in Hadj. rewrite Htail in Hadj. rewrite Hadj.
    replace (String.length rest - 3 + 3) with (String.length rest) by lia.
    by rewrite substring_whole. }
  split; [by rewrite <- Hrest |].
  unfold EtkFiles.module_name, PyText.drop_last. do 2 f_equal.
  rewrite append_length. cbn [String.length].
  replace (3 + String.length rest - 3)
    with (S (S (S (String.length rest - 3)))) by lia.
  reflexivity.
Qed.

End PathFacts.

(** * The added properties on concrete collaborators *)

Lemma demo_bare_reachable : Etk.reachable Demo.parse Demo.discover Demo.bare.
Proof.
  exact (Etk.reachable_init Demo.parse Demo.discover None Etk.ModulesNone
           "process" Demo.bare eq_refl).
Qed.

Lemma demo_loaded_reachable :
  Etk.reachable Demo.parse Demo.discover Demo.loaded.
Proof.
  exact (Etk.reachable_init Demo.parse Demo.discover None
           (Etk.ModulesPath "./ems/") "throw_document" Demo.loaded eq_refl).
Qed.

Lemma demo_after_second_later : Etk.later Demo.bare Demo.after_second.
Proof.
  exact (Etk.later_parse _ _ "name"
           (Etk.later_parse _ _ "projects.members" (Etk.later_now _))).
Qed.

Lemma parse_json_path_answers_as_parser_witness :
  (Etk.parse_json_path Demo.after_first "projects.members").2
  = Ok ["projects"; "members"]
  /\ (Etk.parse_json_path Demo.after_first "projects..members").2
     = Raise (InvalidJsonPathError "Invalid Json Path").
Proof.
  assert (Etk.reachable Demo.parse Demo.discover Demo.after_first) as Hreach
    by exact (Etk.reachable_parse _ _ _ "projects.members" demo_bare_reachable).
  split.
  - exact (parse_json_path_answers_as_parser Demo.parse Demo.discover
             Demo.after_first "projects.members" Hreach).
  - exact (parse_json_path_answers_as_parser Demo.parse Demo.discover
             Demo.after_first "projects..members" Hreach).
Defined.

Lemma cache_only_grows_witness :
  Etk.parsed Demo.after_first ⊆ Etk.parsed Demo.after_second.
Proof.
  exact (cache_only_grows Demo.after_first Demo.after_second
           (Etk.later_parse _ _ "name" (Etk.later_now _))).
Defined.

Lemma parse_all_parses_once_witness :
  length
    (filter (fun q => q = "name")
       (EtkUse.parse_all Demo.bare ["name"; "projects"; "name"; "name"]).2)
  <= 1.
Proof.
  exact (parse_all_parses_once Demo.bare ["name"; "projects"; "name"; "name"]
           "name" ["name"] eq_refl).
Defined.

Lemma parse_all_reparses_rejected_witness :
  length
    (filter (fun q => q = "a..b")
       (EtkUse.parse_all Demo.bare ["a..b"; "name"; "a..b"]).2)
  = length (filter (fun q => q = "a..b") ["a..b"; "name"; "a..b"]).
Proof.
  exact (parse_all_reparses_rejected Demo.parse Demo.discover Demo.bare
           ["a..b"; "name"; "a..b"] "a..b" demo_bare_reachable eq_refl).
Defined.



Lemma reachable_em_lst_not_empty_witness :
  [Demo.TeamModule; Demo.IdleModule; Demo.DeveloperModule] <> [].
Proof.
  exact (reachable_em_lst_not_empty Demo.parse Demo.discover Demo.loaded
           [Demo.TeamModule; Demo.IdleModule; Demo.DeveloperModule]
           demo_loaded_reachable eq_refl).
Defined.

Lemma reachable_error_policy_witness :
  Etk.error_policy Demo.loaded = Some Etk.RAISE
  \/ Etk.error_policy Demo.loaded = Some Etk.PROCESS.
Proof.
  exact (reachable_error_policy Demo.parse Demo.discover Demo.loaded
           demo_loaded_reachable).
Defined.

Lemma process_ems_stops_at_exception_witness :
  Etk.process_ems (H := Sample.step_module) Demo.doc_kg Sample.with_failure []
  = (([Etk.CallSelector Sample.Good [] true; Etk.CallProcess Sample.Good []]
      ++ [Etk.CallSelector Sample.Bad ["good"] true;
          Etk.CallProcess Sample.Bad ["good"]])%list,
     Raise (ModuleError "bad")).
Proof.
  exact (process_ems_stops_at_exception (H := Sample.step_module) Demo.doc_kg
           Sample.with_failure [Sample.Good] Sample.Bad [Sample.Late] []
           [Etk.CallSelector Sample.Good [] true; Etk.CallProcess Sample.Good []]
           ["good"] (ModuleError "bad") eq_refl eq_refl eq_refl eq_refl).
Defined.

Lemma demo_idle_selects_nothing m (doc : list string) :
  m ∈ [Demo.IdleModule; Demo.IdleModule] -> Etk.document_selector m doc = false.
Proof.
  intros Hm. apply elem_of_cons in Hm as [-> | Hm]; [done |].
  apply list_elem_of_singleton in Hm as ->. done.
Defined.

Lemma process_ems_none_selected_witness :
  Etk.process_ems Demo.doc_kg Sample.idle ["seen"]
  = (map (fun m => Etk.CallSelector m ["seen"] false)
       [Demo.IdleModule; Demo.IdleModule],
     Ok (["seen"], Demo.doc_kg ["seen"])).
Proof.
  exact (process_ems_none_selected Demo.doc_kg Sample.idle
           [Demo.IdleModule; Demo.IdleModule] ["seen"] eq_refl
           (fun m => demo_idle_selects_nothing m ["seen"])).
Defined.

Lemma sample_names_one_line :
  Forall (fun e => PyText.one_line e = true) Sample.names.
Proof. repeat constructor. Defined.

Lemma load_glossary_entries_witness :
  EtkFiles.load_glossary Sample.read_text Sample.json_load "names.txt" false
  = inr (EtkFiles.GlossaryLines Sample.names).
Proof.
  exact (load_glossary_entries Sample.read_text Sample.json_load "names.txt"
           Sample.names eq_refl sample_names_one_line).
Defined.

Lemma load_glossary_entries_one_line_witness :
  Forall (fun e => PyText.one_line e = true)
    [PyText.codes "Pedro"; PyText.codes "Mayank"].
Proof.
  exact (load_glossary_entries_one_line Sample.read_text Sample.json_load
           "unfinished.txt" [PyText.codes "Pedro"; PyText.codes "Mayank"]
           eq_refl).
Defined.

Lemma sample_unfinished_not_empty : Sample.unfinished <> [].
Proof. discriminate. Defined.

Lemma load_glossary_final_newline_witness :
  EtkFiles.load_glossary Sample.read_text Sample.json_load "finished.txt" false
  = EtkFiles.load_glossary Sample.read_text Sample.json_load "unfinished.txt"
      false.
Proof.
  exact (load_glossary_final_newline Sample.read_text Sample.json_load
           "unfinished.txt" "finished.txt" Sample.unfinished eq_refl eq_refl
           sample_unfinished_not_empty eq_refl).
Defined.

(** One code point of the ten line boundaries ends a line in the model as
    in [str.splitlines]: here U+2028 and U+2029. *)
Example splitlines_unicode_separators :
  PyText.splitlines [97; 8232; 98; 8233; 99]%N = [[97]; [98]; [99]]%N.
Proof. reflexivity. Qed.

Lemma load_ems_instances_from_em_files_witness :
  exists files file_name this_module key cls,
    Sample.listdir (PyStr.strip "/" (PyStr.strip "." "./ems/")) = Some files
    /\ file_name ∈ files
    /\ EtkFiles.is_em_file file_name = true
    /\ Sample.import_module
         (EtkFiles.module_name (PyStr.strip "/" (PyStr.strip "." "./ems/"))
            file_name)
       = Some this_module
    /\ (key, EtkFiles.PyType cls) ∈ EtkFiles.mod_dict this_module
    /\ EtkFiles.cls_is_etk_module cls = true
    /\ EtkFiles.cls_module cls = EtkFiles.mod_name this_module
    /\ EtkFiles.cls_new cls = Some Demo.DeveloperModule.
Proof.
  exact (load_ems_instances_from_em_files Sample.listdir Sample.import_module
           "./ems/" [Demo.DeveloperModule] Demo.DeveloperModule eq_refl
           (list_elem_of_here _ _)).
Defined.

Lemma load_ems_wrong_file_path_witness :
  EtkFiles.load_ems Sample.listdir Sample.import_module "broken"
  = Raise (NotGetETKModuleError "Wrong file path for ETK modules").
Proof.
  apply load_ems_wrong_file_path. right.
  exists ["em_bad.py"], "em_bad.py".
  split; [reflexivity |]. split; [apply list_elem_of_here |].
  split; [reflexivity |]. left. reflexivity.
Defined.

Lemma sample_notes_no_em_file file_name :
  file_name ∈ ["notes.txt"] -> EtkFiles.is_em_file file_name = true ->
  exists this_module,
    Sample.import_module
      (EtkFiles.module_name (PyStr.strip "/" (PyStr.strip "." "notes"))
         file_name)
    = Some this_module
    /\ EtkFiles.classes_in_module this_module = [].
Proof. intros ->%list_elem_of_singleton. discriminate. Defined.

Lemma load_ems_no_module_witness :
  EtkFiles.load_ems Sample.listdir Sample.import_module "notes"
  = Raise (NotGetETKModuleError
             "No ETK module in dir, module file should start with em_, end with .py").
Proof.
  exact (load_ems_no_module Sample.listdir Sample.import_module "notes"
           ["notes.txt"] eq_refl sample_notes_no_em_file).
Defined.

Lemma load_ems_asks_trimmed_names_witness :
  Etk.load_ems Demo.discover "./ems/"
  = Etk.load_ems
      (fun d => if PyText.starts_with_char "/" d then None else Demo.discover d)
      "./ems/".
Proof.
  apply load_ems_asks_trimmed_names. intros d Hhead _. by rewrite Hhead.
Defined.

Lemma em_file_module_name_witness :
  exists stem,
    "em_names.py" = String.append "em_" (String.append stem ".py")
    /\ EtkFiles.module_name "ems" "em_names.py"
       = String.append "ems" (String.append "." (String.append "em_" stem)).
Proof. exact (em_file_module_name "ems" "em_names.py" eq_refl). Defined.

(** * The tokens the unit test expects *)




